(** * The KiCAD MCP server's command broker

    A shallow embedding of the request broker of [KiCADMcpServer]
    (the class that owns the Python child process): [callKicadScript],
    [handlePythonResponse], [tryParseResponse], [processNextRequest],
    [stop] and the child's [exit] listener registered by [start].

    The class is single-threaded JavaScript.  Every handler runs to
    completion, so the embedding is a state machine: one function per
    handler, each taking the object's fields (and the part of the Node
    runtime the handlers touch: armed timers, promises, the child's stdin)
    to their values when the handler returns.  The child's stdout arrives
    as Buffers of bytes, which [handlePythonResponse] decodes one by one. *)

From Stdlib Require Import List String Ascii ZArith NArith Bool Arith Lia.
From Stdlib Require Import DecimalString Sorted.
From Stdlib.Strings Require Byte.
Import ListNotations.

Set Implicit Arguments.

(** ** JavaScript strings *)

(** A JavaScript string is a sequence of UTF-16 code units. *)
Definition CodeUnit := N.
Definition JSString := list CodeUnit.

(** An ASCII literal as a JavaScript string. *)
Definition js (s : string) : JSString :=
  map N_of_ascii (list_ascii_of_string s).

(** ECMAScript [WhiteSpace] and [LineTerminator] code points, the ones
    String.prototype.trim strips. *)
Definition isWhiteSpace (c : CodeUnit) : bool :=
  ((c =? 0x0009) || (c =? 0x000A) || (c =? 0x000B) || (c =? 0x000C) ||
   (c =? 0x000D) || (c =? 0x0020) || (c =? 0x00A0) || (c =? 0x1680) ||
   ((0x2000 <=? c) && (c <=? 0x200A)) ||
   (c =? 0x2028) || (c =? 0x2029) || (c =? 0x202F) || (c =? 0x205F) ||
   (c =? 0x3000) || (c =? 0xFEFF))%N.

Fixpoint trimStart (s : JSString) : JSString :=
  match s with
  | [] => []
  | c :: r => if isWhiteSpace c then trimStart r else s
  end.

Definition trimEnd (s : JSString) : JSString := rev (trimStart (rev s)).

Definition trim (s : JSString) : JSString := trimEnd (trimStart s).

(** The string '\n'. *)
Definition newline : JSString := [10%N].

(** Truthiness of a string: every string but the empty one. *)
Definition truthy (s : JSString) : bool :=
  match s with [] => false | _ :: _ => true end.

(** [Array.prototype.includes] on an array of strings. *)
Definition includes (l : list string) (x : string) : bool :=
  existsb (String.eqb x) l.

(** ** Buffers *)

(** A Node Buffer: a sequence of bytes. *)
Definition Buffer := list Byte.byte.

(** U+FFFD, which the decoder puts in the place of bytes that are not
    UTF-8. *)
Definition replacement : CodeUnit := 0xFFFD%N.

(** A code point as UTF-16 code units: itself, or a surrogate pair. *)
Definition codeUnits (cp : N) : JSString :=
  if (cp <? 0x10000)%N then [cp]
  else [(0xD800 + N.shiftr (cp - 0x10000) 10)%N;
        (0xDC00 + N.land (cp - 0x10000) 0x3FF)%N].

(** The decoder inside a multi-byte character: the bits read so far, the
    number of continuation bytes still to come, and the range the next
    one must lie in. *)
Record Partial : Type := {
  u_code_point : N;
  u_needed : nat;
  u_lower : N;
  u_upper : N
}.

(** A byte read between two characters. *)
Definition utf8_lead (b : N) : JSString * option Partial :=
  if (b <=? 0x7F)%N then ([b], None)
  else if ((0xC2 <=? b) && (b <=? 0xDF))%N then
    ([], Some {| u_code_point := N.land b 0x1F; u_needed := 1;
                 u_lower := 0x80; u_upper := 0xBF |})
  else if ((0xE0 <=? b) && (b <=? 0xEF))%N then
    ([], Some {| u_code_point := N.land b 0xF; u_needed := 2;
                 u_lower := if (b =? 0xE0)%N then 0xA0 else 0x80;
                 u_upper := if (b =? 0xED)%N then 0x9F else 0xBF |})
  else if ((0xF0 <=? b) && (b <=? 0xF4))%N then
    ([], Some {| u_code_point := N.land b 0x7; u_needed := 3;
                 u_lower := if (b =? 0xF0)%N then 0x90 else 0x80;
                 u_upper := if (b =? 0xF4)%N then 0x8F else 0xBF |})
  else ([replacement], None).

(** One byte through the decoder: the code units it completes and the
    state it leaves.  A byte that cannot continue the character ends it
    with U+FFFD and is read again as the start of the next one. *)
Definition utf8_feed (st : option Partial) (b : N)
  : JSString * option Partial :=
  match st with
  | None => utf8_lead b
  | Some p =>
      if ((u_lower p <=? b) && (b <=? u_upper p))%N then
        let cp := N.lor (N.shiftl (u_code_point p) 6) (N.land b 0x3F) in
        match u_needed p with
        | S (S n) =>
            ([], Some {| u_code_point := cp; u_needed := S n;
                         u_lower := 0x80; u_upper := 0xBF |})
        | _ => (codeUnits cp, None)
        end
      else
        let (out, st') := utf8_lead b in (replacement :: out, st')
  end.

(** The bytes decoded from state [st] on; a character cut short by the
    end of the Buffer becomes U+FFFD. *)
Fixpoint utf8_decode (st : option Partial) (data : Buffer) : JSString :=
  match data with
  | [] => match st with None => [] | Some _ => [replacement] end
  | b :: rest =>
      let (out, st') := utf8_feed st (Byte.to_N b) in
      out ++ utf8_decode st' rest
  end.

(** [buf.toString()]: the Buffer decoded as UTF-8, by itself.  Bytes that
    are not UTF-8 become U+FFFD, one for each longest part of a character
    they begin, and nothing is carried over to the next Buffer. *)
Definition toString (data : Buffer) : JSString := utf8_decode None data.

(** The state the decoder is in after [data]. *)
Fixpoint utf8_state (st : option Partial) (data : Buffer) : option Partial :=
  match data with
  | [] => st
  | b :: rest => utf8_state (snd (utf8_feed st (Byte.to_N b))) rest
  end.

(** [data] does not end inside a multi-byte character. *)
Definition whole (data : Buffer) : bool :=
  match utf8_state None data with
  | None => true
  | Some _ => false
  end.

(** ** Data *)

(** [request: { command, params, timeout }], as pushed on the queue. *)
Record Request (Params : Type) : Type := {
  command : string;
  params : Params;
  timeout : Z
}.

(** What the [try] block of [processNextRequest] can raise. *)
Inductive Exn : Type :=
| StringifyError   (* JSON.stringify(request) threw *)
| WriteError.      (* stdin.write(...) threw *)

(** The errors a caller's promise is rejected with:
    - [ProcessNotRunning]:
      Error("Python process for KiCAD scripting is not running");
    - [CommandTimeout d c]: Error(`Command timeout after ${d/1000}s: ${c}`);
    - [Raised e]: the exception caught in [processNextRequest]. *)
Inductive KError : Type :=
| ProcessNotRunning
| CommandTimeout (timeoutDuration : Z) (cmd : string)
| Raised (e : Exn).

Inductive Settlement (Value : Type) : Type :=
| Resolved (result : Value)
| Rejected (error : KError).
Arguments Rejected {Value} error.

(** The parts of the JavaScript runtime the broker calls and that are not
    code of the class: JSON.stringify (None when it throws), JSON.parse
    (None when it throws), the test [result === null] (reading
    [result.success] throws exactly then), and whether the child's
    stdin.write throws on a line. *)
Class Runtime (Params Value : Type) : Type := {
  JSON_stringify : Request Params -> option JSString;
  JSON_parse : JSString -> option Value;
  isNull : Value -> bool;
  stdin_write_throws : JSString -> bool
}.

(** A promise created by [callKicadScript]; its [resolve] and [reject]
    functions are represented by the promise they settle. *)
Definition CallId := nat.

(** A timer handle returned by setTimeout. *)
Definition TimerId := nat.

(** The child process: spawned with stdio: ['pipe', 'pipe', 'pipe'], so
    [stdin] is attached for every process [start] creates. *)
Record ChildProcess : Type := {
  pid : nat;
  stdin : bool
}.

(** The two callbacks the class passes to setTimeout: the deadline
    closure of [processNextRequest], which captured [reject],
    [timeoutDuration] and [request.command], and
    [() => this.processNextRequest()]. *)
Inductive TimerTask : Type :=
| DeadlineTask (reject : CallId) (timeoutDuration : Z) (cmd : string)
| DrainTask.

Record Timer : Type := {
  t_id : TimerId;
  t_delay : Z;
  t_task : TimerTask
}.

Section Broker.

Context {Params Value : Type} {RT : Runtime Params Value}.

(** An element of [requestQueue]: { request, resolve, reject }. *)
Record QueueEntry : Type := {
  request : Request Params;
  caller : CallId
}.

(** [currentRequestHandler]: { resolve, reject, timeoutHandle }. *)
Record RequestHandler : Type := {
  h_caller : CallId;
  timeoutHandle : TimerId
}.

(** The fields of the class the broker uses, followed by the runtime
    state its handlers act on:
    - [timers]: the armed timers, oldest first; [next_timer]: the next handle;
    - [settled]: the promises settled so far, in the order they were
      settled; [next_call]: the next promise;
    - [stdin_written]: the lines written to the child's stdin, oldest first;
    - [kill_signals]: how many times kill() was called on a child. *)
Record KiCADMcpServer : Type := {
  pythonProcess : option ChildProcess;
  requestQueue : list QueueEntry;
  processingRequest : bool;
  responseBuffer : JSString;
  currentRequestHandler : option RequestHandler;
  timers : list Timer;
  next_timer : TimerId;
  settled : list (CallId * Settlement Value);
  next_call : CallId;
  stdin_written : list JSString;
  kill_signals : nat
}.

Definition set_pythonProcess (p : option ChildProcess) (s : KiCADMcpServer) :=
  {| pythonProcess := p; requestQueue := requestQueue s;
     processingRequest := processingRequest s;
     responseBuffer := responseBuffer s;
     currentRequestHandler := currentRequestHandler s;
     timers := timers s; next_timer := next_timer s;
     settled := settled s; next_call := next_call s;
     stdin_written := stdin_written s; kill_signals := kill_signals s |}.

Definition set_requestQueue (q : list QueueEntry) (s : KiCADMcpServer) :=
  {| pythonProcess := pythonProcess s; requestQueue := q;
     processingRequest := processingRequest s;
     responseBuffer := responseBuffer s;
     currentRequestHandler := currentRequestHandler s;
     timers := timers s; next_timer := next_timer s;
     settled := settled s; next_call := next_call s;
     stdin_written := stdin_written s; kill_signals := kill_signals s |}.

Definition set_processingRequest (b : bool) (s : KiCADMcpServer) :=
  {| pythonProcess := pythonProcess s; requestQueue := requestQueue s;
     processingRequest := b;
     responseBuffer := responseBuffer s;
     currentRequestHandler := currentRequestHandler s;
     timers := timers s; next_timer := next_timer s;
     settled := settled s; next_call := next_call s;
     stdin_written := stdin_written s; kill_signals := kill_signals s |}.

Definition set_responseBuffer (b : JSString) (s : KiCADMcpServer) :=
  {| pythonProcess := pythonProcess s; requestQueue := requestQueue s;
     processingRequest := processingRequest s;
     responseBuffer := b;
     currentRequestHandler := currentRequestHandler s;
     timers := timers s; next_timer := next_timer s;
     settled := settled s; next_call := next_call s;
     stdin_written := stdin_written s; kill_signals := kill_signals s |}.

Definition set_currentRequestHandler (h : option RequestHandler)
    (s : KiCADMcpServer) :=
  {| pythonProcess := pythonProcess s; requestQueue := requestQueue s;
     processingRequest := processingRequest s;
     responseBuffer := responseBuffer s;
     currentRequestHandler := h;
     timers := timers s; next_timer := next_timer s;
     settled := settled s; next_call := next_call s;
     stdin_written := stdin_written s; kill_signals := kill_signals s |}.

Definition set_timers (l : list Timer) (n : TimerId) (s : KiCADMcpServer) :=
  {| pythonProcess := pythonProcess s; requestQueue := requestQueue s;
     processingRequest := processingRequest s;
     responseBuffer := responseBuffer s;
     currentRequestHandler := currentRequestHandler s;
     timers := l; next_timer := n;
     settled := settled s; next_call := next_call s;
     stdin_written := stdin_written s; kill_signals := kill_signals s |}.

Definition set_settled (l : list (CallId * Settlement Value))
    (s : KiCADMcpServer) :=
  {| pythonProcess := pythonProcess s; requestQueue := requestQueue s;
     processingRequest := processingRequest s;
     responseBuffer := responseBuffer s;
     currentRequestHandler := currentRequestHandler s;
     timers := timers s; next_timer := next_timer s;
     settled := l; next_call := next_call s;
     stdin_written := stdin_written s; kill_signals := kill_signals s |}.

Definition set_next_call (n : CallId) (s : KiCADMcpServer) :=
  {| pythonProcess := pythonProcess s; requestQueue := requestQueue s;
     processingRequest := processingRequest s;
     responseBuffer := responseBuffer s;
     currentRequestHandler := currentRequestHandler s;
     timers := timers s; next_timer := next_timer s;
     settled := settled s; next_call := n;
     stdin_written := stdin_written s; kill_signals := kill_signals s |}.

Definition set_stdin_written (l : list JSString) (s : KiCADMcpServer) :=
  {| pythonProcess := pythonProcess s; requestQueue := requestQueue s;
     processingRequest := processingRequest s;
     responseBuffer := responseBuffer s;
     currentRequestHandler := currentRequestHandler s;
     timers := timers s; next_timer := next_timer s;
     settled := settled s; next_call := next_call s;
     stdin_written := l; kill_signals := kill_signals s |}.

Definition set_kill_signals (n : nat) (s : KiCADMcpServer) :=
  {| pythonProcess := pythonProcess s; requestQueue := requestQueue s;
     processingRequest := processingRequest s;
     responseBuffer := responseBuffer s;
     currentRequestHandler := currentRequestHandler s;
     timers := timers s; next_timer := next_timer s;
     settled := settled s; next_call := next_call s;
     stdin_written := stdin_written s; kill_signals := n |}.

(** ** Runtime primitives *)

(** setTimeout(task, delay): arms a new single-shot timer and returns its
    handle. *)
Definition setTimeout (task : TimerTask) (delay : Z) (s : KiCADMcpServer)
  : TimerId * KiCADMcpServer :=
  let t := next_timer s in
  (t, set_timers
        (timers s ++ [{| t_id := t; t_delay := delay; t_task := task |}])
        (S t) s).

(** clearTimeout(t): disarms timer [t]; nothing happens when it is not
    armed. *)
Definition clearTimeout (t : TimerId) (s : KiCADMcpServer) : KiCADMcpServer :=
  set_timers (filter (fun x => negb (t_id x =? t)) (timers s)) (next_timer s) s.

Definition lookup_timer (t : TimerId) (s : KiCADMcpServer) : option Timer :=
  find (fun x => t_id x =? t) (timers s).

(** The state of a promise: [None] while it is pending. *)
Definition outcome_in (l : list (CallId * Settlement Value)) (c : CallId)
  : option (Settlement Value) :=
  match find (fun x => fst x =? c) l with
  | Some x => Some (snd x)
  | None => None
  end.

Definition outcome (c : CallId) (s : KiCADMcpServer)
  : option (Settlement Value) :=
  outcome_in (settled s) c.

(** Calling [resolve] or [reject] of a promise: the first call settles it,
    later calls do nothing. *)
Definition settle (c : CallId) (o : Settlement Value) (s : KiCADMcpServer)
  : KiCADMcpServer :=
  match outcome c s with
  | Some _ => s
  | None => set_settled (settled s ++ [(c, o)]) s
  end.

(** ** The handlers *)

Definition longRunningCommands : list string :=
  ["run_drc"; "export_gerber"; "export_pdf"; "export_3d"]%string.

(** The value of the local [commandTimeout] of [callKicadScript] when the
    request is pushed. *)
Definition commandTimeout (command : string) : Z :=
  if includes longRunningCommands command then 600000%Z else 30000%Z.

(** The [catch] block of [processNextRequest]; [reject] is the one taken
    from the dequeued entry. *)
Definition processNextRequest_catch (error : Exn) (reject : CallId)
    (s : KiCADMcpServer) : KiCADMcpServer :=
  let s := set_processingRequest false s in
  let s := set_currentRequestHandler None s in
  let s := snd (setTimeout DrainTask 0 s) in
  settle reject (Rejected (Raised error)) s.

(** this.pythonProcess?.stdin?.write(line): [None] when write throws. *)
Definition stdin_write (line : JSString) (s : KiCADMcpServer)
  : option KiCADMcpServer :=
  match pythonProcess s with
  | None => Some s
  | Some p =>
      if stdin p then
        if stdin_write_throws line then None
        else Some (set_stdin_written (stdin_written s ++ [line]) s)
      else Some s
  end.

Definition processNextRequest (s : KiCADMcpServer) : KiCADMcpServer :=
  match requestQueue s with
  | [] => s
  | entry :: rest =>
      if processingRequest s then s
      else
        let s := set_processingRequest true s in
        let s := set_requestQueue rest s in
        match JSON_stringify (request entry) with
        | None => processNextRequest_catch StringifyError (caller entry) s
        | Some requestStr =>
            let s := set_responseBuffer [] s in
            let timeoutDuration :=
              if (timeout (request entry) =? 0)%Z then 30000%Z
              else timeout (request entry) in
            let (timeoutHandle, s) :=
              setTimeout
                (DeadlineTask (caller entry) timeoutDuration
                   (command (request entry)))
                timeoutDuration s in
            let s :=
              set_currentRequestHandler
                (Some {| h_caller := caller entry;
                         timeoutHandle := timeoutHandle |}) s in
            match stdin_write (requestStr ++ newline) s with
            | Some s => s
            | None => processNextRequest_catch WriteError (caller entry) s
            end
        end
  end.

(** [callKicadScript]: returns the promise it created. *)
Definition callKicadScript (command : string) (params : Params)
    (s : KiCADMcpServer) : CallId * KiCADMcpServer :=
  let promise := next_call s in
  let s := set_next_call (S promise) s in
  match pythonProcess s with
  | None => (promise, settle promise (Rejected ProcessNotRunning) s)
  | Some _ =>
      let s :=
        set_requestQueue
          (requestQueue s ++
             [{| request := {| command := command; params := params;
                               timeout := commandTimeout command |};
                 caller := promise |}]) s in
      (promise, if processingRequest s then s else processNextRequest s)
  end.

Definition tryParseResponse (s : KiCADMcpServer) : KiCADMcpServer :=
  match currentRequestHandler s with
  | None =>
      if truthy (trim (responseBuffer s)) then set_responseBuffer [] s else s
  | Some handler =>
      match JSON_parse (responseBuffer s) with
      | None => s
      | Some result =>
          if isNull result then s (* result.success threw; caught below *)
          else
            (* a Timeout object is truthy: the timer is always cleared *)
            let s := clearTimeout (timeoutHandle handler) s in
            let s := set_responseBuffer [] s in
            let s := set_currentRequestHandler None s in
            let s := set_processingRequest false s in
            let s := settle (h_caller handler) (Resolved result) s in
            snd (setTimeout DrainTask 0 s)
      end
  end.

(** [handlePythonResponse]: every Buffer the stdout listener receives is
    decoded by itself and appended to the buffer. *)
Definition handlePythonResponse (data : Buffer) (s : KiCADMcpServer)
  : KiCADMcpServer :=
  let chunk := toString data in
  tryParseResponse (set_responseBuffer (responseBuffer s ++ chunk) s).

(** The body of a timer callback. *)
Definition runTask (task : TimerTask) (s : KiCADMcpServer) : KiCADMcpServer :=
  match task with
  | DeadlineTask reject timeoutDuration cmd =>
      let s := set_responseBuffer [] s in
      let s := set_currentRequestHandler None s in
      let s := set_processingRequest false s in
      let s :=
        settle reject (Rejected (CommandTimeout timeoutDuration cmd)) s in
      snd (setTimeout DrainTask 0 s)
  | DrainTask => processNextRequest s
  end.

(** Timer [t] expires: it leaves the armed timers and its callback runs.
    Nothing happens when [t] is not armed. *)
Definition fire (t : TimerId) (s : KiCADMcpServer) : KiCADMcpServer :=
  match lookup_timer t s with
  | None => s
  | Some x => runTask (t_task x) (clearTimeout t s)
  end.

(** The [exit] listener that [start] registers on the child. *)
Definition onExit (s : KiCADMcpServer) : KiCADMcpServer :=
  set_pythonProcess None s.

Definition stop (s : KiCADMcpServer) : KiCADMcpServer :=
  match pythonProcess s with
  | Some _ =>
      let s := set_kill_signals (S (kill_signals s)) s in
      set_pythonProcess None s
  | None => s
  end.

(** ** The event loop *)

(** What the event loop can run next: a caller's [callKicadScript], a
    [data] event of the child's stdout, an armed timer, the child's [exit]
    event, [stop]. *)
Inductive Event : Type :=
| Submit (command : string) (params : Params)
| Data (data : Buffer)
| Fire (t : TimerId)
| Exit
| Stop.

Definition step (s : KiCADMcpServer) (e : Event) : KiCADMcpServer :=
  match e with
  | Submit command params => snd (callKicadScript command params s)
  | Data data => handlePythonResponse data s
  | Fire t => fire t s
  | Exit => onExit s
  | Stop => stop s
  end.

Definition run (s : KiCADMcpServer) (tr : list Event) : KiCADMcpServer :=
  fold_left step tr s.

(** The object once [start] has spawned child [p]: the field
    initialisers of the class, and nothing armed, settled or written. *)
Definition started (p : ChildProcess) : KiCADMcpServer :=
  {| pythonProcess := Some p; requestQueue := [];
     processingRequest := false; responseBuffer := [];
     currentRequestHandler := None;
     timers := []; next_timer := 0;
     settled := []; next_call := 0;
     stdin_written := []; kill_signals := 0 |}.

(** The states the object can be in between two handlers. *)
Definition reachable (s : KiCADMcpServer) : Prop :=
  exists p tr, stdin p = true /\ s = run (started p) tr.

(** ** Notions the properties are stated with *)

(** The promise of the request that was written to the child and is not
    settled yet, if any. *)
Definition in_flight (s : KiCADMcpServer) : list CallId :=
  match currentRequestHandler s with
  | Some h => [h_caller h]
  | None => []
  end.

(** The events of a run during which the child stays alive. *)
Definition alive_event (e : Event) : bool :=
  match e with
  | Exit | Stop => false
  | _ => true
  end.

Definition is_submit (e : Event) : bool :=
  match e with
  | Submit _ _ => true
  | _ => false
  end.

Definition is_drain (x : Timer) : bool :=
  match t_task x with
  | DrainTask => true
  | DeadlineTask _ _ _ => false
  end.

(** The next scheduling turn: every armed zero-delay drain callback runs,
    oldest first. *)
Definition next_turn (s : KiCADMcpServer) : KiCADMcpServer :=
  fold_left (fun s x => fire (t_id x) s) (filter is_drain (timers s)) s.

(** The events of a run in which the child answers every request in
    time: it stays alive and no deadline timer expires. *)
Definition responsive_event (s : KiCADMcpServer) (e : Event) : bool :=
  match e with
  | Submit _ _ | Data _ => true
  | Fire t =>
      match lookup_timer t s with
      | Some x => is_drain x
      | None => true
      end
  | Exit | Stop => false
  end.

Fixpoint responsive (s : KiCADMcpServer) (tr : list Event) : bool :=
  match tr with
  | [] => true
  | e :: tr' => responsive_event s e && responsive (step s e) tr'
  end.

Definition is_resolved (x : CallId * Settlement Value) : bool :=
  match snd x with
  | Resolved _ => true
  | Rejected _ => false
  end.

(** The child answers the pending call with [doc], in one chunk, and the
    next turn runs. *)
Definition answer (s : KiCADMcpServer) (doc : Buffer) : KiCADMcpServer :=
  next_turn (handlePythonResponse doc s).

(** [doc] is a response: decoded, it parses, to a value that is not
    null. *)
Definition parses_to (doc : Buffer) (v : Value) : Prop :=
  JSON_parse (toString doc) = Some v /\ isNull v = false.

Definition submit_of (r : string * Params) : Event :=
  Submit (fst r) (snd r).

(** The deadline [processNextRequest] computes for an entry. *)
Definition timeoutDuration_of (e : QueueEntry) : Z :=
  if (timeout (request e) =? 0)%Z then 30000%Z else timeout (request e).

(** The state [processNextRequest] is in when it calls write. *)
Definition dispatched (e : QueueEntry) (rest : list QueueEntry)
    (s : KiCADMcpServer)
  : KiCADMcpServer :=
  set_currentRequestHandler
    (Some {| h_caller := caller e; timeoutHandle := next_timer s |})
    (snd (setTimeout
            (DeadlineTask (caller e) (timeoutDuration_of e)
               (command (request e)))
            (timeoutDuration_of e)
            (set_responseBuffer []
               (set_requestQueue rest (set_processingRequest true s))))).

(** An armed timer: its handle was handed out; a deadline timer belongs to
    a promise that was created and has left the queue, and runs after the
    delay its command asks for; a drain callback runs at once. *)
Definition timer_ok (nt : TimerId) (nc : CallId) (queued : list CallId)
    (x : Timer) : Prop :=
  t_id x < nt /\
  match t_task x with
  | DeadlineTask c d cmd =>
      c < nc /\ ~ In c queued /\ t_delay x = d /\ d = commandTimeout cmd
  | DrainTask => t_delay x = 0%Z
  end.

(** A queued request: its promise was created and is pending, and its
    timeout is the one of its command. *)
Definition entry_ok (nc : CallId) (done : list CallId) (e : QueueEntry)
  : Prop :=
  caller e < nc /\ ~ In (caller e) done /\
  timeout (request e) = commandTimeout (command (request e)).

(** The pending call: the object is busy, the promise is pending and its
    deadline timer is armed. *)
Definition handler_ok (s : KiCADMcpServer) : Prop :=
  match currentRequestHandler s with
  | Some h =>
      processingRequest s = true /\
      ~ In (h_caller h) (map fst (settled s)) /\
      exists d cmd,
        In {| t_id := timeoutHandle h; t_delay := d;
              t_task := DeadlineTask (h_caller h) d cmd |} (timers s)
  | None => processingRequest s = false
  end.

(** What holds of the object between two handlers, whatever the runtime
    does. *)
Record wf (s : KiCADMcpServer) : Prop := {
  wf_timers :
    Forall (timer_ok (next_timer s) (next_call s)
              (map caller (requestQueue s))) (timers s);
  wf_timer_ids : NoDup (map t_id (timers s));
  wf_settled : Forall (fun c => c < next_call s) (map fst (settled s));
  wf_queue :
    Forall (entry_ok (next_call s) (map fst (settled s))) (requestQueue s);
  wf_queue_ids : NoDup (map caller (requestQueue s));
  wf_handler : handler_ok s
}.

(** What holds in addition while the child is alive and its stdin never
    throws: promises are settled in the order they were created, the
    pending one comes next and the queued ones after it; the only deadline
    timer armed is the pending call's; every line written but the pending
    call's belongs to a settled promise. *)
Record serial (s : KiCADMcpServer) : Prop := {
  serial_alive : pythonProcess s <> None;
  serial_order :
    map fst (settled s) ++ in_flight s ++ map caller (requestQueue s)
    = seq 0 (next_call s);
  serial_deadline :
    forall x, In x (timers s) -> is_drain x = false ->
      exists h, currentRequestHandler s = Some h /\ t_id x = timeoutHandle h;
  serial_written :
    List.length (stdin_written s)
    <= List.length (settled s) + List.length (in_flight s)
}.

End Broker.

(** [pre] is a prefix of [full] and is shorter. *)
Definition proper_prefix (pre full : JSString) : Prop :=
  exists suffix, suffix <> [] /\ full = pre ++ suffix.

(** ** The child's side of the pipe *)

Definition byte_of (n : N) : Byte.byte :=
  match Byte.of_N n with
  | Some b => b
  | None => Byte.x00
  end.

Definition isHighSurrogate (c : CodeUnit) : bool :=
  ((0xD800 <=? c) && (c <=? 0xDBFF))%N.

Definition isLowSurrogate (c : CodeUnit) : bool :=
  ((0xDC00 <=? c) && (c <=? 0xDFFF))%N.

(** The three bytes of a code point from U+0800 to U+FFFF. *)
Definition utf8_three (c : N) : Buffer :=
  [byte_of (0xE0 + N.shiftr c 12);
   byte_of (0x80 + N.land (N.shiftr c 6) 0x3F);
   byte_of (0x80 + N.land c 0x3F)]%N.

(** The bytes the child writes for a text: its UTF-8 encoding, a surrogate
    without its partner being written as U+FFFD. *)
Fixpoint utf8 (s : JSString) : Buffer :=
  match s with
  | [] => []
  | c :: r =>
      if (c <? 0x80)%N then byte_of c :: utf8 r
      else if (c <? 0x800)%N then
        byte_of (0xC0 + N.shiftr c 6) :: byte_of (0x80 + N.land c 0x3F)
        :: utf8 r
      else if isHighSurrogate c then
        match r with
        | d :: r' =>
            if isLowSurrogate d then
              let cp :=
                (0x10000 + N.shiftl (c - 0xD800) 10 + (d - 0xDC00))%N in
              byte_of (0xF0 + N.shiftr cp 18)
              :: byte_of (0x80 + N.land (N.shiftr cp 12) 0x3F)
              :: byte_of (0x80 + N.land (N.shiftr cp 6) 0x3F)
              :: byte_of (0x80 + N.land cp 0x3F)
              :: utf8 r'
            else utf8_three replacement ++ utf8 r
        | [] => utf8_three replacement
        end
      else if isLowSurrogate c then utf8_three replacement ++ utf8 r
      else utf8_three c ++ utf8 r
  end.

(** ** A concrete runtime, for running the broker on examples

    JSON values without fractions, exponents, signs or escapes, their
    parser and printer.  The theorems below hold for every [Runtime];
    this one is used to evaluate the handlers on concrete inputs. *)

Module ToyJson.

#[warnings="-register-all"] Inductive Json : Type :=
| JNull
| JBool (b : bool)
| JNum (n : N)
| JStr (s : JSString)
| JArr (items : list Json)
| JObj (members : list (JSString * Json)).

Definition isJsonSpace (c : CodeUnit) : bool :=
  ((c =? 32) || (c =? 9) || (c =? 10) || (c =? 13))%N.

Fixpoint skipSpace (s : JSString) : JSString :=
  match s with
  | [] => []
  | c :: r => if isJsonSpace c then skipSpace r else s
  end.

Definition isDigit (c : CodeUnit) : bool := ((48 <=? c) && (c <=? 57))%N.

Fixpoint parseDigits (acc : N) (s : JSString) : N * JSString :=
  match s with
  | [] => (acc, [])
  | c :: r =>
      if isDigit c then parseDigits (acc * 10 + (c - 48))%N r else (acc, s)
  end.

(** The characters of a string literal, after its opening quote. *)
Fixpoint parseChars (s : JSString) : option (JSString * JSString) :=
  match s with
  | [] => None
  | c :: r =>
      if (c =? 34)%N then Some ([], r)
      else if ((c =? 92) || (c <? 32))%N then None
      else match parseChars r with
           | Some (x, r') => Some (c :: x, r')
           | None => None
           end
  end.

Fixpoint stripPrefix (p s : JSString) : option JSString :=
  match p, s with
  | [], _ => Some s
  | _ :: _, [] => None
  | a :: p', b :: s' => if (a =? b)%N then stripPrefix p' s' else None
  end.

Definition literal (rest : string) (v : Json) (s : JSString)
  : option (Json * JSString) :=
  match stripPrefix (js rest) s with
  | Some r => Some (v, r)
  | None => None
  end.

Fixpoint parseValue (fuel : nat) (s : JSString) {struct fuel}
  : option (Json * JSString) :=
  match fuel with
  | O => None
  | S fuel =>
      match skipSpace s with
      | [] => None
      | c :: r =>
          if (c =? 110)%N then literal "ull" JNull r
          else if (c =? 116)%N then literal "rue" (JBool true) r
          else if (c =? 102)%N then literal "alse" (JBool false) r
          else if (c =? 48)%N then Some (JNum 0, r)
          else if isDigit c then
            let (n, r') := parseDigits 0 (c :: r) in Some (JNum n, r')
          else if (c =? 34)%N then
            match parseChars r with
            | Some (x, r') => Some (JStr x, r')
            | None => None
            end
          else if (c =? 91)%N then
            match skipSpace r with
            | [] => None
            | d :: r' =>
                if (d =? 93)%N then Some (JArr [], r')
                else match parseItems fuel r with
                     | Some (l, r'') => Some (JArr l, r'')
                     | None => None
                     end
            end
          else if (c =? 123)%N then
            match skipSpace r with
            | [] => None
            | d :: r' =>
                if (d =? 125)%N then Some (JObj [], r')
                else match parseMembers fuel r with
                     | Some (l, r'') => Some (JObj l, r'')
                     | None => None
                     end
            end
          else None
      end
  end
with parseItems (fuel : nat) (s : JSString) {struct fuel}
  : option (list Json * JSString) :=
  match fuel with
  | O => None
  | S fuel =>
      match parseValue fuel s with
      | None => None
      | Some (v, r) =>
          match skipSpace r with
          | [] => None
          | d :: r' =>
              if (d =? 93)%N then Some ([v], r')
              else if (d =? 44)%N then
                match parseItems fuel r' with
                | Some (l, r'') => Some (v :: l, r'')
                | None => None
                end
              else None
          end
      end
  end
with parseMembers (fuel : nat) (s : JSString) {struct fuel}
  : option (list (JSString * Json) * JSString) :=
  match fuel with
  | O => None
  | S fuel =>
      match skipSpace s with
      | [] => None
      | q :: r0 =>
          if (q =? 34)%N then
            match parseChars r0 with
            | None => None
            | Some (k, r1) =>
                match skipSpace r1 with
                | [] => None
                | colon :: r2 =>
                    if (colon =? 58)%N then
                      match parseValue fuel r2 with
                      | None => None
                      | Some (v, r) =>
                          match skipSpace r with
                          | [] => None
                          | d :: r' =>
                              if (d =? 125)%N then Some ([(k, v)], r')
                              else if (d =? 44)%N then
                                match parseMembers fuel r' with
                                | Some (l, r'') => Some ((k, v) :: l, r'')
                                | None => None
                                end
                              else None
                          end
                      end
                    else None
                end
            end
          else None
      end
  end.

(** One document, with nothing but white space after it. *)
Definition parse (s : JSString) : option Json :=
  match parseValue (2 * List.length s + 2) s with
  | Some (v, r) => match skipSpace r with [] => Some v | _ :: _ => None end
  | None => None
  end.

Definition decimal (n : N) : JSString :=
  js (DecimalString.NilEmpty.string_of_uint (N.to_uint n)).

Definition quoted (s : JSString) : JSString := (34 :: s ++ [34])%N.

Fixpoint print (j : Json) : JSString :=
  match j with
  | JNull => js "null"
  | JBool true => js "true"
  | JBool false => js "false"
  | JNum n => decimal n
  | JStr s => quoted s
  | JArr items =>
      let fix go (l : list Json) : JSString :=
        match l with
        | [] => []
        | [x] => print x
        | x :: r => print x ++ 44%N :: go r
        end in
      (91 :: go items ++ [93])%N
  | JObj members =>
      let fix go (l : list (JSString * Json)) : JSString :=
        match l with
        | [] => []
        | [(k, x)] => quoted k ++ 58%N :: print x
        | (k, x) :: r => quoted k ++ 58%N :: print x ++ 44%N :: go r
        end in
      (123 :: go members ++ [125])%N
  end.

Definition isNullJson (j : Json) : bool :=
  match j with JNull => true | _ => false end.

(** JSON.stringify of a request whose params are a [Json] value. *)
Definition stringifyRequest (r : Request Json) : option JSString :=
  Some (print (JObj [(js "command", JStr (js (command r)));
                     (js "params", params r);
                     (js "timeout", JNum (Z.to_N (timeout r)))])).

(** A runtime whose stdin never throws. *)
Definition runtime : Runtime Json Json :=
  {| JSON_stringify := stringifyRequest;
     JSON_parse := parse;
     isNull := isNullJson;
     stdin_write_throws := fun _ => false |}.

(** A runtime whose stdin throws on the lines that mention export_pdf. *)
Fixpoint mentions (p s : JSString) : bool :=
  match stripPrefix p s with
  | Some _ => true
  | None => match s with [] => false | _ :: r => mentions p r end
  end.

Definition faulty_runtime : Runtime Json Json :=
  {| JSON_stringify := stringifyRequest;
     JSON_parse := parse;
     isNull := isNullJson;
     stdin_write_throws := mentions (js "export_pdf") |}.

Definition child : ChildProcess := {| pid := 1; stdin := true |}.

(** The params [{}] and the response [{"success":true}], whole and in
    three chunks. *)
Definition no_params : Json := JObj [].

Definition success : Json := JObj [(js "success", JBool true)].

Definition success_doc : Buffer := utf8 (print success).

Definition success_chunks : list Buffer :=
  [utf8 (js "{"); utf8 (quoted (js "success")); utf8 (js ":true}")].

(** The response [{"name":"caf\u00E9"}]: in UTF-8 the last letter of the
    name is the two bytes C3 A9. *)
Definition cafe : Json := JObj [(js "name", JStr (js "caf" ++ [0xE9%N]))].

Definition cafe_doc : Buffer := utf8 (print cafe).

(** The same bytes in three chunks, the first of which ends between the
    two bytes of the last letter. *)
Definition cafe_chunks : list Buffer :=
  [utf8 (js "{" ++ quoted (js "name") ++ js ":" ++ 34%N :: js "caf")
   ++ [Byte.xc3];
   [Byte.xa9; Byte.x22];
   utf8 (js "}")].

(** What the broker makes of them. *)
Definition cafe_garbled : Json :=
  JObj [(js "name", JStr (js "caf" ++ [replacement; replacement]))].

Definition two_requests : list (string * Json) :=
  [("run_drc"%string, no_params); ("get_board_info"%string, no_params)].

(** Two calls, an answer in two chunks, a turn, an answer, a turn. *)
Definition answered_run : list (@Event Json) :=
  [Submit "run_drc" no_params; Submit "get_board_info" no_params;
   Data (utf8 (js "{")); Data (utf8 (quoted (js "success") ++ js ":true}"));
   Fire 1; Data success_doc; Fire 3].

Definition answered : @KiCADMcpServer Json Json :=
  run (RT := runtime) (started child) answered_run.

(** A call that was answered, and the turn after it: the object is idle. *)
Definition idle_again : @KiCADMcpServer Json Json :=
  run (RT := runtime) (started child)
    [Submit "run_drc" no_params; Data success_doc; Fire 1].

(** One call, pending. *)
Definition one_pending : @KiCADMcpServer Json Json :=
  run (RT := runtime) (started child) [Submit "get_board_info" no_params].

(** Two calls: run_drc pending, get_board_info queued. *)
Definition two_calls : @KiCADMcpServer Json Json :=
  run (RT := runtime) (started child)
    [Submit "run_drc" no_params; Submit "get_board_info" no_params].

(** export_pdf is called and stdin.write throws. *)
Definition after_write_error : @KiCADMcpServer Json Json :=
  run (RT := faulty_runtime) (started child) [Submit "export_pdf" no_params].

(** A turn later get_board_info is called, and is pending. *)
Definition next_call_pending : @KiCADMcpServer Json Json :=
  run (RT := faulty_runtime) after_write_error
    [Fire 1; Submit "get_board_info" no_params].

(** The object after [stop]. *)
Definition stopped : @KiCADMcpServer Json Json :=
  run (RT := runtime) (started child) [Stop].

(** Two calls, [stop], and the deadline of the first call: the second
    call is queued, the child is gone and a drain callback is armed. *)
Definition queued_without_child : @KiCADMcpServer Json Json :=
  run (RT := runtime) (started child)
    [Submit "run_drc" no_params; Submit "get_board_info" no_params;
     Stop; Fire 0].

End ToyJson.


(** * More of the broker *)

Section BrokerNotions.

Context {Params Value : Type} {RT : Runtime Params Value}.

(** A line as [processNextRequest] writes them: JSON.stringify of a
    request whose timeout field is the one of its command, and '\n'. *)
Definition request_line (line : JSString) : Prop :=
  exists (r : Request Params) (requestStr : JSString),
    JSON_stringify r = Some requestStr /\
    line = requestStr ++ newline /\
    timeout r = commandTimeout (command r).

(** While no call is pending the buffer holds white space at most. *)
Definition blank_when_idle (s : @KiCADMcpServer Params Value) : Prop :=
  currentRequestHandler s = None ->
  forallb isWhiteSpace (responseBuffer s) = true.

(** The lines written are request lines, and there are no more of them
    than calls that left the queue. *)
Definition written_ok (s : @KiCADMcpServer Params Value) : Prop :=
  Forall request_line (stdin_written s) /\
  List.length (stdin_written s) + List.length (requestQueue s)
  <= next_call s.

(** The pending call followed by the queue. *)
Definition waiting (s : @KiCADMcpServer Params Value) : list CallId :=
  in_flight s ++ map caller (requestQueue s).

(** Every queued request carries the timeout of its command. *)
Definition queue_timeouts_ok (s : @KiCADMcpServer Params Value) : Prop :=
  Forall (fun e => timeout (request e) = commandTimeout (command (request e)))
    (requestQueue s).

End BrokerNotions.

Module ToyJsonMore.

Import ToyJson.

(** Params that JSON.stringify may refuse: [None] stands for a value it
    throws on (a circular object, a BigInt). *)
Definition stringifyOptional (r : Request (option Json)) : option JSString :=
  match params r with
  | Some j =>
      stringifyRequest
        {| command := command r; params := j; timeout := timeout r |}
  | None => None
  end.

Definition picky_runtime : Runtime (option Json) Json :=
  {| JSON_stringify := stringifyOptional;
     JSON_parse := parse;
     isNull := isNullJson;
     stdin_write_throws := fun _ => false |}.

(** A call is answered while a call with unserialisable params is queued
    behind it. *)
Definition unserialisable_queued : @KiCADMcpServer (option Json) Json :=
  run (RT := picky_runtime) (started child)
    [Submit "get_board_info" (Some no_params); Submit "add_wire" None;
     Data success_doc].

(** A run that uses every handler. *)
Definition busy_run : list (@Event Json) :=
  [Submit "run_drc" no_params; Submit "get_board_info" no_params;
   Data (utf8 (js "{")); Fire 0; Data (utf8 newline); Fire 1; Stop;
   Submit "add_wire" no_params; Exit; Fire 2].

End ToyJsonMore.

(** * The schematic tools

    The handler of the add_schematic_component tool (tools/schematic.ts)
    rewrites its arguments before it calls [callKicadScript]. *)

(** [s.includes(c)] and [s.split(c)] for a separator [c] of one code
    unit. *)
Definition includesUnit (c : CodeUnit) (s : JSString) : bool :=
  existsb (N.eqb c) s.

Fixpoint split (c : CodeUnit) (s : JSString) : list JSString :=
  match s with
  | [] => [[]]
  | u :: r =>
      if (u =? c)%N then [] :: split c r
      else match split c r with
           | part :: parts => (u :: part) :: parts
           | [] => [[u]]
           end
  end.

Definition colon : CodeUnit := 58%N.

Module Schematic.

Section Transform.

(** JavaScript numbers, and the number 0. *)
Variable Number : Type.
Variable zero : Number.

Record Position : Type := { x : Number; y : Number }.

(** The arguments of the tool; an optional field that is absent is
    [None]. *)
Record Args : Type := {
  schematicPath : JSString;
  symbol : JSString;
  reference : JSString;
  value : option JSString;
  position : option Position
}.

(** The [component] the Python side gets; [library] and [type] come from
    an array destructuring, and are undefined ([None]) when the array is
    too short. *)
Record Component : Type := {
  library : option JSString;
  type : option JSString;
  c_reference : JSString;
  c_value : option JSString;
  c_x : Number;
  c_y : Number
}.

Record Transformed : Type := {
  t_schematicPath : JSString;
  component : Component
}.

Definition transform (args : Args) : Transformed :=
  let parts :=
    if includesUnit colon (symbol args) then split colon (symbol args)
    else [js "Device"; symbol args] in
  {| t_schematicPath := schematicPath args;
     component :=
       {| library := nth_error parts 0;
          type := nth_error parts 1;
          c_reference := reference args;
          c_value := value args;
          c_x := match position args with Some p => x p | None => zero end;
          c_y := match position args with Some p => y p | None => zero end
       |} |}.

(** The arguments with another symbol. *)
Definition with_symbol (sym : JSString) (args : Args) : Args :=
  {| schematicPath := schematicPath args; symbol := sym;
     reference := reference args; value := value args;
     position := position args |}.

End Transform.

(** Arguments for running the handler: numbers are integers here. *)
Definition esp32_args : Args Z :=
  {| schematicPath := js "/tmp/board.kicad_sch";
     symbol := js "EDA-MCP:ESP32-C3";
     reference := js "U1";
     value := None;
     position := None |}.

(** The commands the schematic tools send, in the order of the file. *)
Definition commands : list string :=
  ["create_schematic"; "add_schematic_component"; "add_wire";
   "add_schematic_connection"; "add_schematic_net_label"; "connect_to_net";
   "get_net_connections"; "generate_netlist"; "get_schematic_info"]%string.

End Schematic.

(** * The tool registry

    The second module of tools/schematic.ts: the table of routed tools by
    category, the direct tools, the two lookup maps built when the module
    is loaded, and the queries. *)

Module Registry.

Open Scope string_scope.

Record ToolCategory : Type := {
  name : string;
  description : string;
  tools : list string
}.

Definition toolCategories : list ToolCategory :=
  [ {| name := "board";
       description :=
         "Board configuration: layers, mounting holes, zones, visualization";
       tools := ["add_layer"; "set_active_layer"; "get_layer_list";
                 "add_mounting_hole"; "add_board_text"; "add_zone";
                 "get_board_extents"; "get_board_2d_view";
                 "launch_kicad_ui"] |};
    {| name := "component";
       description :=
         "Advanced component operations: edit, delete, search, group, annotate";
       tools := ["rotate_component"; "delete_component"; "edit_component";
                 "find_component"; "get_component_properties";
                 "add_component_annotation"; "group_components";
                 "replace_component"] |};
    {| name := "export";
       description :=
         "File export for fabrication and documentation: Gerber, PDF, BOM, 3D models";
       tools := ["export_gerber"; "export_pdf"; "export_svg"; "export_3d";
                 "export_bom"; "export_netlist"; "export_position_file";
                 "export_vrml"] |};
    {| name := "drc";
       description :=
         "Design rule checking and electrical validation: DRC, net classes, clearances";
       tools := ["set_design_rules"; "get_design_rules"; "run_drc";
                 "add_net_class"; "assign_net_to_class";
                 "set_layer_constraints"; "check_clearance";
                 "get_drc_violations"] |};
    {| name := "schematic";
       description :=
         "Schematic operations: create, add components, wire connections, netlists";
       tools := ["create_schematic"; "add_schematic_component"; "add_wire";
                 "add_schematic_connection"; "add_schematic_net_label";
                 "connect_to_net"; "get_net_connections"; "generate_netlist";
                 "get_schematic_info"] |};
    {| name := "library";
       description :=
         "Footprint library access: search, browse, get footprint information";
       tools := ["list_libraries"; "search_footprints";
                 "list_library_footprints"; "get_footprint_info"] |};
    {| name := "routing";
       description := "Advanced routing operations: vias, copper pours";
       tools := ["add_via"; "add_copper_pour"] |} ].

Definition directToolNames : list string :=
  ["create_project"; "open_project"; "save_project"; "get_project_info";
   "place_component"; "move_component"; "add_net"; "route_trace";
   "get_board_info"; "set_board_size";
   "add_board_outline";
   "check_kicad_ui"].

(** A JavaScript [Map] with string keys, as the list of its entries in
    insertion order. *)
Definition StringMap (V : Type) : Type := list (string * V).

(** [m.set(k, v)]: the entry of [k] is replaced where it is, or added at
    the end. *)
Fixpoint map_set {V : Type} (k : string) (v : V) (m : StringMap V)
  : StringMap V :=
  match m with
  | [] => [(k, v)]
  | (k', v') :: r =>
      if String.eqb k' k then (k, v) :: r else (k', v') :: map_set k v r
  end.

(** [m.get(k)]: [None] is undefined. *)
Fixpoint map_get {V : Type} (k : string) (m : StringMap V) : option V :=
  match m with
  | [] => None
  | (k', v) :: r => if String.eqb k' k then Some v else map_get k r
  end.

Definition map_has {V : Type} (k : string) (m : StringMap V) : bool :=
  match map_get k m with Some _ => true | None => false end.

(** The two maps of the module. *)
Record Maps : Type := {
  categoryMap : StringMap ToolCategory;
  toolCategoryMap : StringMap string
}.

Definition no_maps : Maps := {| categoryMap := []; toolCategoryMap := [] |}.

(** [s.includes(sub)] on strings. *)
Fixpoint includesString (sub s : string) : bool :=
  String.prefix sub s ||
  match s with
  | EmptyString => false
  | String _ r => includesString sub r
  end.

Record SearchResult : Type := {
  r_category : string;
  r_tool : string;
  r_description : string
}.

Record CategoryCount : Type := { c_name : string; tool_count : nat }.

Record Stats : Type := {
  total_categories : nat;
  total_routed_tools : nat;
  total_direct_tools : nat;
  total_tools : nat;
  categories : list CategoryCount
}.

(** The functions, over a table of categories: the module's own table is
    [toolCategories]. *)
Section Table.

Variable table : list ToolCategory.

(** String.prototype.toLowerCase. *)
Variable toLowerCase : string -> string.

Definition initializeRegistry_on (maps : Maps) : Maps :=
  fold_left
    (fun maps category =>
       let maps :=
         {| categoryMap := map_set (name category) category (categoryMap maps);
            toolCategoryMap := toolCategoryMap maps |} in
       fold_left
         (fun maps toolName =>
            {| categoryMap := categoryMap maps;
               toolCategoryMap :=
                 map_set toolName (name category) (toolCategoryMap maps) |})
         (tools category) maps)
    table maps.

Definition getRoutedToolNames_on : list string :=
  fold_left
    (fun allRoutedTools category => (allRoutedTools ++ tools category)%list)
    table [].

Definition searchTools_on (query : string) : list SearchResult :=
  let q := toLowerCase query in
  let matches :=
    fold_left
      (fun matches category =>
         let categoryMatch :=
           includesString q (toLowerCase (name category)) ||
           includesString q (toLowerCase (description category)) in
         fold_left
           (fun matches toolName =>
              if includesString q (toLowerCase toolName) || categoryMatch
              then (matches ++
                    [{| r_category := name category; r_tool := toolName;
                        r_description :=
                          (toolName ++ " (" ++ name category ++ ")")%string
                     |}])%list
              else matches)
           (tools category) matches)
      table [] in
  firstn 20 matches.

(** What a search is meant to return, said without loops: for each
    category in table order, its tools in order that match the query or
    whose category matches it; the first 20 of them. *)
Definition toolMatches (q : string) (category : ToolCategory)
    (toolName : string) : bool :=
  includesString q (toLowerCase toolName) ||
  (includesString q (toLowerCase (name category)) ||
   includesString q (toLowerCase (description category))).

Definition resultFor (category : ToolCategory) (toolName : string)
  : SearchResult :=
  {| r_category := name category; r_tool := toolName;
     r_description := (toolName ++ " (" ++ name category ++ ")")%string |}.

Definition matchingTools (query : string) : list SearchResult :=
  flat_map
    (fun category =>
       map (resultFor category)
         (filter (toolMatches (toLowerCase query) category) (tools category)))
    table.

Definition getRegistryStats_on : Stats :=
  let routedToolCount := List.length getRoutedToolNames_on in
  let directToolCount := List.length directToolNames in
  {| total_categories := List.length table;
     total_routed_tools := routedToolCount;
     total_direct_tools := directToolCount;
     total_tools := routedToolCount + directToolCount;
     categories :=
       map (fun c => {| c_name := name c;
                        tool_count := List.length (tools c) |}) table |}.

End Table.

Definition initializeRegistry : Maps -> Maps :=
  initializeRegistry_on toolCategories.

(** The maps once the module is loaded. *)
Definition loaded : Maps := initializeRegistry no_maps.

Definition getCategory (maps : Maps) (name : string) : option ToolCategory :=
  map_get name (categoryMap maps).

Definition getToolCategory (maps : Maps) (toolName : string) : option string :=
  map_get toolName (toolCategoryMap maps).

Definition getAllCategories : list ToolCategory := toolCategories.

Definition getRoutedToolNames : list string :=
  getRoutedToolNames_on toolCategories.

Definition isDirectTool (toolName : string) : bool :=
  includes directToolNames toolName.

Definition isRoutedTool (maps : Maps) (toolName : string) : bool :=
  map_has toolName (toolCategoryMap maps).

Definition searchTools (toLowerCase : string -> string) (query : string)
  : list SearchResult :=
  searchTools_on toolCategories toLowerCase query.

Definition getRegistryStats : Stats := getRegistryStats_on toolCategories.

(** toLowerCase on the ASCII letters, for running the search. *)
Definition asciiLower (a : ascii) : ascii :=
  let n := nat_of_ascii a in
  if (65 <=? n)%nat && (n <=? 90)%nat then ascii_of_nat (n + 32) else a.

Fixpoint asciiLowerCase (s : string) : string :=
  match s with
  | EmptyString => EmptyString
  | String a r => String (asciiLower a) (asciiLowerCase r)
  end.

Close Scope string_scope.

End Registry.

(** * Finding and checking the Python interpreter

    [findPythonExecutable] and [validatePrerequisites], which [start] runs
    before it spawns the child. *)

(** [s.startsWith(p)] and [s.includes(sub)]. *)
Fixpoint startsWith (p s : JSString) : bool :=
  match p, s with
  | [], _ => true
  | _ :: _, [] => false
  | a :: p', b :: s' => (a =? b)%N && startsWith p' s'
  end.

Fixpoint includesSub (sub s : JSString) : bool :=
  startsWith sub s ||
  match s with
  | [] => false
  | _ :: r => includesSub sub r
  end.

(** [s] between double quotes. *)
Definition inQuotes (s : JSString) : JSString := (34 :: s ++ [34])%N.

Module Launcher.

(** How a command run by child_process.exec ends: the callback gets an
    error, or stdout and stderr. *)
Inductive ExecResult : Type :=
| ExecError (message : JSString)
| ExecDone (stdout stderr : JSString).

(** What the two functions ask the host: process.platform, two
    environment variables (absent: [None]), fs.existsSync, path.join,
    path.dirname, the output of execSync('which python3') ([None] when it
    throws) and the result of exec on a command line. *)
Record Host : Type := {
  platform : string;
  KICAD_PYTHON : option JSString;
  PYTHONPATH : option JSString;
  existsSync : JSString -> bool;
  join : list JSString -> JSString;
  dirname : JSString -> JSString;
  which_python3 : option JSString;
  exec : JSString -> ExecResult
}.

Section OnHost.

Variable host : Host.

Definition isWindows : bool := String.eqb (platform host) "win32".
Definition isMac : bool := String.eqb (platform host) "darwin".
Definition isLinux : bool := negb isWindows && negb isMac.

(** The last resort of [findPythonExecutable]. *)
Definition systemPython : JSString :=
  js (if isWindows then "python.exe" else "python3").

Definition venvPaths (projectRoot : JSString) : list JSString :=
  [join host [projectRoot; js "venv";
              js (if isWindows then "Scripts" else "bin");
              js (if isWindows then "python.exe" else "python")];
   join host [projectRoot; js ".venv";
              js (if isWindows then "Scripts" else "bin");
              js (if isWindows then "python.exe" else "python")]].

Definition windowsKicadPython : JSString :=
  js "C:\Program Files\KiCad\9.0\bin\python.exe".

Definition kicadPythonVersions : list string :=
  ["3.9"; "3.10"; "3.11"; "3.12"]%string.

Definition macKicadPython (version : string) : JSString :=
  js "/Applications/KiCad/KiCad.app/Contents/Frameworks/Python.framework/Versions/"
  ++ js version ++ js "/bin/python3".

Definition linuxKicadPaths : list JSString :=
  [js "/usr/lib/kicad/bin/python3"; js "/usr/local/lib/kicad/bin/python3";
   js "/opt/kicad/bin/python3"].

Definition systemPaths : list JSString :=
  [js "/usr/bin/python3"; js "/bin/python3"].

(** The [try] block around execSync('which python3'): the path it
    returns from, if it does. *)
Definition whichPython : option JSString :=
  match which_python3 host with
  | Some output =>
      let result := trim output in
      if truthy result && existsSync host result then Some result else None
  | None => None
  end.

Definition findPythonExecutable (scriptPath : JSString) : JSString :=
  let projectRoot := dirname host (dirname host scriptPath) in
  match KICAD_PYTHON host with
  | Some (c :: v) => c :: v
  | _ =>
      match find (existsSync host) (venvPaths projectRoot) with
      | Some venvPath => venvPath
      | None =>
          if isWindows &&
             match PYTHONPATH host with
             | Some pythonPath => includesSub (js "KiCad") pythonPath
             | None => false
             end
          then
            if existsSync host windowsKicadPython then windowsKicadPython
            else systemPython
          else if isMac then
            match find (existsSync host)
                    (map macKicadPython kicadPythonVersions) with
            | Some kicadPython => kicadPython
            | None => systemPython
            end
          else if isLinux then
            match find (existsSync host) linuxKicadPaths with
            | Some path => path
            | None =>
                match whichPython with
                | Some result => result
                | None =>
                    match find (existsSync host) systemPaths with
                    | Some path => path
                    | None => systemPython
                    end
                end
            end
          else systemPython
      end
  end.

(** The interpreters [findPythonExecutable] tries when KICAD_PYTHON is
    not set, in the order of its doc comment: virtual environment, then
    the Python bundled with KiCAD, then the system Python. *)
Definition candidates (scriptPath : JSString) : list JSString :=
  venvPaths (dirname host (dirname host scriptPath)) ++
  (if isWindows then
     match PYTHONPATH host with
     | Some pythonPath =>
         if includesSub (js "KiCad") pythonPath then [windowsKicadPython]
         else []
     | None => []
     end
   else if isMac then map macKicadPython kicadPythonVersions
   else
     linuxKicadPaths ++
     match which_python3 host with
     | Some output => if truthy (trim output) then [trim output] else []
     | None => []
     end ++
     systemPaths).

(** The errors [validatePrerequisites] collects for the interpreter. *)
Definition isAbsolutePath (pythonExe : JSString) : bool :=
  startsWith (js "/") pythonExe || startsWith (js "C:") pythonExe ||
  startsWith (js "\") pythonExe.

Definition versionCommand (pythonExe : JSString) : JSString :=
  inQuotes pythonExe ++ js " --version".

Definition pythonErrors (pythonExe : JSString) : list JSString :=
  if isAbsolutePath pythonExe then
    if negb (existsSync host pythonExe) then
      (js "Python executable not found: " ++ pythonExe) ::
      (if isWindows then
         [js "Windows: Install KiCAD 9.0+ from https://www.kicad.org/download/windows/";
          js "Or run: .\setup-windows.ps1 for automatic configuration"]
       else if isLinux then
         [js "Linux: Install KiCAD 9.0+ or set KICAD_PYTHON environment variable";
          js "Set KICAD_PYTHON to specify a custom Python path"]
       else [])
    else []
  else
    match exec host (versionCommand pythonExe) with
    | ExecDone _ _ => []
    | ExecError message =>
        [js "Python executable not found in PATH: " ++ pythonExe;
         js "Error: " ++ message;
         js "Set KICAD_PYTHON environment variable to specify full path"] ++
        (if isLinux then
           [[]; js "Linux troubleshooting:";
            js "1. Check if python3 is installed: which python3";
            js "2. Install KiCAD: sudo apt install kicad (Ubuntu/Debian)";
            js "3. Set KICAD_PYTHON=/usr/bin/python3 in your MCP config"]
         else [])
    end.

Definition pcbnewTestCommand (pythonExe : JSString) : JSString :=
  inQuotes pythonExe ++ js " -c " ++ inQuotes (js "import pcbnew; print('OK')").

(** The errors it collects when it tries to import pcbnew. *)
Definition pcbnewErrors (kicadScriptPath pythonExe : JSString)
  : list JSString :=
  if existsSync host pythonExe && existsSync host kicadScriptPath then
    match exec host (pcbnewTestCommand pythonExe) with
    | ExecDone stdout stderr =>
        if negb (includesSub (js "OK") stdout) then
          [js "pcbnew module import test failed";
           js "Output: " ++ stdout;
           js "Errors: " ++ stderr] ++
          (if isWindows then
             [[]; js "Windows troubleshooting:";
              js "1. Set PYTHONPATH=C:\Program Files\KiCad\9.0\lib\python3\dist-packages";
              js "2. Test: " ++ inQuotes windowsKicadPython ++ js " -c " ++
                inQuotes (js "import pcbnew");
              js "3. Run: .\setup-windows.ps1 for automatic fix";
              js "4. See: docs/WINDOWS_TROUBLESHOOTING.md"]
           else [])
        else []
    | ExecError message =>
        (js "pcbnew validation failed: " ++ message) ::
        (if isWindows then
           [[]; js "This usually means:"; js "- KiCAD is not installed";
            js "- PYTHONPATH is incorrect";
            js "- Python cannot find pcbnew module"; [];
            js "Quick fix: Run .\setup-windows.ps1"]
         else [])
    end
  else [].

Definition distPath (kicadScriptPath : JSString) : JSString :=
  join host [dirname host (dirname host kicadScriptPath); js "dist";
             js "index.js"].

(** The array [errors] of [validatePrerequisites] when it is logged. *)
Definition prerequisiteErrors (kicadScriptPath pythonExe : JSString)
  : list JSString :=
  pythonErrors pythonExe ++
  (if negb (existsSync host kicadScriptPath)
   then [js "KiCAD interface script not found: " ++ kicadScriptPath]
   else []) ++
  (if negb (existsSync host (distPath kicadScriptPath))
   then [js "Project not built. Run: npm run build"]
   else []) ++
  pcbnewErrors kicadScriptPath pythonExe.

(** [validatePrerequisites]: true when no error was collected. *)
Definition validatePrerequisites (kicadScriptPath pythonExe : JSString)
  : bool :=
  match prerequisiteErrors kicadScriptPath pythonExe with
  | [] => true
  | _ :: _ => false
  end.

End OnHost.

(** A Linux host for running the two functions: a project in
    /opt/kicad-mcp with a virtual environment, a system Python, and an
    interpreter that can import pcbnew. *)
Definition sameString (a b : JSString) : bool :=
  if list_eq_dec N.eq_dec a b then true else false.

Fixpoint joinWith (sep : JSString) (parts : list JSString) : JSString :=
  match parts with
  | [] => []
  | [part] => part
  | part :: rest => part ++ sep ++ joinWith sep rest
  end.

Fixpoint dropPastSlash (s : JSString) : JSString :=
  match s with
  | [] => []
  | c :: r => if (c =? 47)%N then r else dropPastSlash r
  end.

Definition parentOf (s : JSString) : JSString :=
  rev (dropPastSlash (rev s)).

Definition project_script : JSString :=
  js "/opt/kicad-mcp/python/kicad_interface.py".

Definition project_files : list JSString :=
  [project_script; js "/opt/kicad-mcp/dist/index.js";
   js "/opt/kicad-mcp/venv/bin/python"; js "/usr/bin/python3"].

Definition linux_host : Host :=
  {| platform := "linux";
     KICAD_PYTHON := None;
     PYTHONPATH := None;
     existsSync := fun path => existsb (sameString path) project_files;
     join := joinWith (js "/");
     dirname := parentOf;
     which_python3 := Some (js "/usr/bin/python3" ++ newline);
     exec := fun _ => ExecDone (js "OK" ++ newline) [] |}.

(** The same host with KICAD_PYTHON set. *)
Definition linux_host_with_override : Host :=
  {| platform := "linux";
     KICAD_PYTHON := Some (js "/usr/bin/python3");
     PYTHONPATH := None;
     existsSync := fun path => existsb (sameString path) project_files;
     join := joinWith (js "/");
     dirname := parentOf;
     which_python3 := Some (js "/usr/bin/python3" ++ newline);
     exec := fun _ => ExecDone (js "OK" ++ newline) [] |}.

End Launcher.

(** * Facts *)

(** ** Lists, strings *)

Lemma forallb_rev (A : Type) (f : A -> bool) (l : list A) :
  forallb f (rev l) = forallb f l.
Proof.
  induction l as [|a l IH]; simpl; [reflexivity|].
  rewrite forallb_app, IH. simpl. rewrite andb_true_r. apply andb_comm.
Qed.

Lemma trimStart_nil (s : JSString) :
  trimStart s = [] <-> forallb isWhiteSpace s = true.
Proof.
  induction s as [|c r IH]; simpl.
  - tauto.
  - destruct (isWhiteSpace c); simpl; [exact IH|].
    split; discriminate.
Qed.

Lemma trimStart_forallb (s : JSString) :
  forallb isWhiteSpace s = false -> forallb isWhiteSpace (trimStart s) = false.
Proof.
  induction s as [|c r IH]; simpl; [discriminate|].
  destruct (isWhiteSpace c) eqn:E; simpl; [exact IH|].
  rewrite E. reflexivity.
Qed.

(** [buffer.trim()] is truthy exactly when the buffer holds a character
    that is not white space. *)
Lemma truthy_trim (s : JSString) :
  truthy (trim s) = negb (forallb isWhiteSpace s).
Proof.
  unfold trim, trimEnd.
  destruct (forallb isWhiteSpace s) eqn:E; simpl.
  - apply trimStart_nil in E. rewrite E. reflexivity.
  - apply trimStart_forallb in E.
    rewrite <- forallb_rev in E.
    apply trimStart_forallb in E.
    rewrite <- forallb_rev in E.
    destruct (rev (trimStart (rev (trimStart s)))); [discriminate|reflexivity].
Qed.

(** Disarming timers leaves the handles of the others distinct. *)
Lemma timer_ids_filter (keep : Timer -> bool) (armed : list Timer) :
  NoDup (map t_id armed) -> NoDup (map t_id (filter keep armed)).
Proof.
  induction armed as [|x armed IH]; simpl; intros H; [constructor|].
  inversion H as [|? ? Hn Hd]; subst.
  destruct (keep x); simpl; [constructor|]; auto.
  intros Hin. apply Hn.
  apply in_map_iff in Hin. destruct Hin as [y [Hy Hin]].
  apply filter_In in Hin. apply in_map_iff. exists y. tauto.
Qed.

Lemma NoDup_snoc (l : list nat) (n : nat) :
  NoDup l -> Forall (fun x => x < n) l -> NoDup (l ++ [n]).
Proof.
  intros Hd Hlt. induction Hd as [|a l Hn Hd IH]; simpl.
  - constructor; [intros []|constructor].
  - inversion Hlt; subst. constructor; auto.
    rewrite in_app_iff. intros [H|[H|[]]]; [tauto|lia].
Qed.

Lemma NoDup_map_inj (A : Type) (f : A -> nat) (l : list A) (x y : A) :
  NoDup (map f l) -> In x l -> In y l -> f x = f y -> x = y.
Proof.
  induction l as [|a l IH]; simpl; intros Hd Hx Hy E; [tauto|].
  inversion Hd as [|? ? Hn Hd']; subst.
  destruct Hx as [Hx|Hx], Hy as [Hy|Hy]; subst; auto.
  - exfalso. apply Hn. rewrite E. apply in_map. assumption.
  - exfalso. apply Hn. rewrite <- E. apply in_map. assumption.
Qed.

Lemma find_id_In (l : list Timer) (x : Timer) :
  NoDup (map t_id l) -> In x l -> find (fun y => t_id y =? t_id x) l = Some x.
Proof.
  induction l as [|a l IH]; simpl; intros Hd Hx; [tauto|].
  inversion Hd as [|? ? Hn Hd']; subst.
  destruct (t_id a =? t_id x) eqn:E.
  - apply Nat.eqb_eq in E. f_equal.
    apply (@NoDup_map_inj _ t_id (a :: l)); simpl; auto.
  - destruct Hx as [Hx|Hx]; [subst; rewrite Nat.eqb_refl in E; discriminate|].
    auto.
Qed.

Lemma find_id_Some (l : list Timer) (t : TimerId) (x : Timer) :
  find (fun y => t_id y =? t) l = Some x -> In x l /\ t_id x = t.
Proof.
  intros H. apply find_some in H. destruct H as [H E].
  apply Nat.eqb_eq in E. auto.
Qed.

Lemma find_snoc_fresh (l : list Timer) (x : Timer) :
  Forall (fun t => t < t_id x) (map t_id l) ->
  find (fun y => t_id y =? t_id x) (l ++ [x]) = Some x.
Proof.
  induction l as [|a l IH]; simpl; intros F.
  - rewrite Nat.eqb_refl. reflexivity.
  - inversion F; subst.
    destruct (t_id a =? t_id x) eqn:E; [apply Nat.eqb_eq in E; lia|auto].
Qed.

Lemma filter_fresh (l : list Timer) (n : TimerId) :
  Forall (fun t => t < n) (map t_id l) ->
  filter (fun x => negb (t_id x =? n)) l = l.
Proof.
  induction l as [|a l IH]; simpl; intros F; [reflexivity|].
  inversion F; subst.
  destruct (t_id a =? n) eqn:E; [apply Nat.eqb_eq in E; lia|].
  simpl. f_equal. auto.
Qed.

Section Facts.

Context {Params Value : Type} {RT : Runtime Params Value}.

Abbreviation Server := (@KiCADMcpServer Params Value).

Lemma outcome_in_None (l : list (CallId * Settlement Value)) (c : CallId) :
  outcome_in l c = None <-> ~ In c (map fst l).
Proof.
  unfold outcome_in. induction l as [|[c' o] l IH]; simpl.
  - tauto.
  - destruct (c' =? c) eqn:E.
    + apply Nat.eqb_eq in E. split; [discriminate|]. intros H. exfalso. auto.
    + apply Nat.eqb_neq in E. rewrite IH. tauto.
Qed.

Lemma outcome_in_app (l : list (CallId * Settlement Value)) c c' o :
  outcome_in (l ++ [(c', o)]) c =
  match outcome_in l c with
  | Some r => Some r
  | None => if c' =? c then Some o else None
  end.
Proof.
  unfold outcome_in. induction l as [|[c1 o1] l IH]; simpl.
  - destruct (c' =? c); reflexivity.
  - destruct (c1 =? c); [reflexivity|exact IH].
Qed.

Lemma settle_fresh (c : CallId) (o : Settlement Value) (s : Server) :
  ~ In c (map fst (settled s)) ->
  settle c o s = set_settled (settled s ++ [(c, o)]) s.
Proof.
  intros H. unfold settle, outcome.
  apply outcome_in_None in H. rewrite H. reflexivity.
Qed.

Lemma settle_cases (c : CallId) (o : Settlement Value) (s : Server) :
  (In c (map fst (settled s)) /\ settle c o s = s) \/
  (~ In c (map fst (settled s)) /\
   settle c o s = set_settled (settled s ++ [(c, o)]) s).
Proof.
  destruct (in_dec Nat.eq_dec c (map fst (settled s))) as [H|H].
  - left. split; [assumption|]. unfold settle, outcome.
    destruct (outcome_in (settled s) c) eqn:E; [reflexivity|].
    apply outcome_in_None in E. tauto.
  - right. split; [assumption|]. apply settle_fresh. assumption.
Qed.

(** ** The invariant of the object *)

Lemma commandTimeout_nonzero (c : string) : (commandTimeout c =? 0)%Z = false.
Proof. unfold commandTimeout. destruct (includes _ _); reflexivity. Qed.

Lemma timer_ok_mono nt nc queued nt' nc' queued' (x : Timer) :
  timer_ok nt nc queued x -> nt <= nt' -> nc <= nc' ->
  (forall c, c < nc -> In c queued' -> In c queued) ->
  timer_ok nt' nc' queued' x.
Proof.
  unfold timer_ok. intros [Hid Ht] Hnt Hnc Hq. split; [lia|].
  destruct (t_task x); [|assumption].
  destruct Ht as (Hc & Hn & Hd). repeat split; try tauto; try lia.
  intros Hin. apply Hn. apply Hq; assumption.
Qed.

Lemma entry_ok_mono nc done nc' done' (e : @QueueEntry Params) :
  entry_ok nc done e -> nc <= nc' -> ~ In (caller e) done' ->
  entry_ok nc' done' e.
Proof.
  unfold entry_ok. intros (H1 & H2 & H3) Hnc Hd. repeat split; auto; lia.
Qed.

Lemma wf_started (p : ChildProcess) : wf (started p : Server).
Proof.
  constructor; simpl; constructor.
Qed.

Lemma wf_timer_lt (s : Server) (x : Timer) :
  wf s -> In x (timers s) -> t_id x < next_timer s.
Proof.
  intros W H. pose proof (wf_timers W) as F.
  rewrite Forall_forall in F. apply F in H. apply H.
Qed.

Lemma wf_ids_lt (s : Server) :
  wf s -> Forall (fun t => t < next_timer s) (map t_id (timers s)).
Proof.
  intros W. apply Forall_forall. intros t H.
  apply in_map_iff in H. destruct H as [x [<- H]].
  eapply wf_timer_lt; eauto.
Qed.

(** Arming the drain callback keeps the invariant. *)
Lemma wf_arm_drain (s : Server) :
  wf s -> wf (snd (setTimeout DrainTask 0 s)).
Proof.
  intros W. destruct W as [Wt Wi Ws Wq Wqi Wh].
  constructor; simpl; auto.
  - apply Forall_app. split.
    + eapply Forall_impl; [|exact Wt]. intros x Hx.
      eapply timer_ok_mono; eauto.
    + constructor; [|constructor]. split; simpl; [lia|reflexivity].
  - rewrite map_app. simpl. apply NoDup_snoc; [assumption|].
    apply wf_ids_lt. constructor; assumption.
  - unfold handler_ok in *. simpl.
    destruct (currentRequestHandler s); [|assumption].
    destruct Wh as (? & ? & d & cmd & Hin). repeat split; auto.
    exists d, cmd. apply in_or_app. auto.
Qed.

(** Settling a promise that is not queued, once the pending-call slot is
    empty, keeps the invariant. *)
Lemma wf_settle (c : CallId) (o : Settlement Value) (s : Server) :
  wf s -> currentRequestHandler s = None -> c < next_call s ->
  ~ In c (map caller (requestQueue s)) ->
  wf (settle c o s).
Proof.
  intros W Hh Hc Hq.
  destruct (settle_cases c o s) as [[_ ->]|[Hn ->]]; [assumption|].
  destruct W as [Wt Wi Ws Wq Wqi Wh].
  constructor; simpl; auto.
  - rewrite map_app. apply Forall_app. split; [assumption|].
    constructor; [assumption|constructor].
  - rewrite Forall_forall in *. intros e He.
    eapply entry_ok_mono; [apply Wq; assumption|lia|].
    rewrite map_app, in_app_iff. simpl. intros [H|[H|[]]].
    + destruct (Wq e He) as (_ & H' & _). tauto.
    + apply Hq. rewrite H. apply in_map. assumption.
  - unfold handler_ok in *. simpl. rewrite Hh in *. assumption.
Qed.

(** Emptying the pending-call slot keeps the invariant. *)
Lemma wf_idle (s : Server) :
  wf s ->
  wf (set_processingRequest false (set_currentRequestHandler None s)).
Proof.
  intros [Wt Wi Ws Wq Wqi Wh]. constructor; simpl; auto.
  unfold handler_ok. reflexivity.
Qed.

Lemma wf_set_written (l : list JSString) (s : Server) :
  wf s -> wf (set_stdin_written l s).
Proof. intros [Wt Wi Ws Wq Wqi Wh]. constructor; simpl; auto. Qed.

(** Disarming a timer that is not the pending call's keeps the
    invariant. *)
Lemma wf_clear (t : TimerId) (s : Server) :
  wf s ->
  (forall h, currentRequestHandler s = Some h -> timeoutHandle h <> t) ->
  wf (clearTimeout t s).
Proof.
  intros [Wt Wi Ws Wq Wqi Wh] Hne. constructor; simpl; auto.
  - apply Forall_forall. intros x Hx. apply filter_In in Hx.
    rewrite Forall_forall in Wt. apply Wt. tauto.
  - apply timer_ids_filter. assumption.
  - unfold handler_ok in *. simpl.
    destruct (currentRequestHandler s) as [h|]; [|assumption].
    destruct Wh as (? & ? & d & cmd & Hin). repeat split; auto.
    exists d, cmd. apply filter_In. split; [assumption|]. simpl.
    apply negb_true_iff, Nat.eqb_neq. apply Hne. reflexivity.
Qed.

(** Dropping the head of the queue keeps the invariant. *)
Lemma wf_dequeue (e : QueueEntry) (rest : list QueueEntry) (s : Server) :
  wf s -> requestQueue s = e :: rest -> wf (set_requestQueue rest s).
Proof.
  intros [Wt Wi Ws Wq Wqi Wh] Hq. rewrite Hq in *.
  constructor; simpl; auto.
  - eapply Forall_impl; [|exact Wt]. intros x Hx.
    eapply timer_ok_mono; eauto. simpl. auto.
  - inversion Wq; assumption.
  - inversion Wqi; assumption.
Qed.

Lemma wf_set_buffer (b : JSString) (s : Server) :
  wf s -> wf (set_responseBuffer b s).
Proof. intros [Wt Wi Ws Wq Wqi Wh]. constructor; simpl; auto. Qed.

(** The pending call's promise is not in the queue. *)
Lemma wf_handler_not_queued (s : Server) h :
  wf s -> currentRequestHandler s = Some h ->
  h_caller h < next_call s /\ ~ In (h_caller h) (map caller (requestQueue s)).
Proof.
  intros W Hh. pose proof (wf_handler W) as H. unfold handler_ok in H.
  rewrite Hh in H. destruct H as (_ & _ & d & cmd & Hin).
  pose proof (wf_timers W) as F. rewrite Forall_forall in F.
  apply F in Hin. destruct Hin as [_ Hin]. simpl in Hin. tauto.
Qed.

(** The state [processNextRequest] is in once it has stored the handler of
    the dequeued entry, before it writes. *)
Lemma wf_dispatch (e : QueueEntry) (rest : list QueueEntry) (s : Server) d :
  wf s -> processingRequest s = false -> requestQueue s = e :: rest ->
  d = (if (timeout (request e) =? 0)%Z then 30000%Z else timeout (request e)) ->
  wf (set_currentRequestHandler
        (Some {| h_caller := caller e; timeoutHandle := next_timer s |})
        (snd (setTimeout (DeadlineTask (caller e) d (command (request e))) d
                (set_responseBuffer []
                   (set_requestQueue rest (set_processingRequest true s)))))).
Proof.
  intros W Hp Hq Hd.
  pose proof (wf_ids_lt W) as Hlt.
  destruct W as [Wt Wi Ws Wq Wqi Wh]. rewrite Hq in *.
  inversion Wq as [|? ? He Hrest]; subst.
  inversion Wqi as [|? ? Hne Hnd]; subst.
  destruct He as (Hc & Hs & Ht).
  constructor; simpl; auto.
  - apply Forall_app. split.
    + eapply Forall_impl; [|exact Wt]. intros x Hx.
      eapply timer_ok_mono; eauto. simpl. auto.
    + constructor; [|constructor]. split; simpl; [lia|].
      repeat split; auto.
      rewrite Ht, commandTimeout_nonzero. reflexivity.
  - rewrite map_app. simpl. apply NoDup_snoc; assumption.
  - unfold handler_ok. simpl. repeat split; auto.
    eexists _, _. apply in_or_app. right. left. reflexivity.
Qed.

Lemma wf_catch (error : Exn) (c : CallId) (s : Server) :
  wf (set_processingRequest false (set_currentRequestHandler None s)) ->
  c < next_call s -> ~ In c (map caller (requestQueue s)) ->
  wf (processNextRequest_catch error c s).
Proof.
  intros W Hc Hq. unfold processNextRequest_catch.
  apply wf_settle; auto. apply wf_arm_drain. assumption.
Qed.

Lemma wf_processNextRequest (s : Server) : wf s -> wf (processNextRequest s).
Proof.
  intros W. unfold processNextRequest.
  destruct (requestQueue s) as [|e rest] eqn:Hq; [assumption|].
  destruct (processingRequest s) eqn:Hp; [assumption|].
  assert (Hc : caller e < next_call s /\ ~ In (caller e) (map caller rest)).
  { pose proof (wf_queue W) as F. pose proof (wf_queue_ids W) as D.
    rewrite Hq in *. inversion F as [|? ? He _]; subst.
    inversion D; subst. destruct He. auto. }
  destruct Hc as [Hc Hn].
  destruct (JSON_stringify (request e)) as [requestStr|].
  - pose proof (@wf_dispatch e rest s _ W Hp Hq eq_refl) as W4.
    unfold setTimeout. simpl. simpl in W4.
    match goal with |- context [stdin_write ?l ?x] =>
      destruct (stdin_write l x) as [s5|] eqn:Hw end.
    + unfold stdin_write in Hw. simpl in Hw.
      destruct (pythonProcess s) as [p|]; [|injection Hw as <-; assumption].
      destruct (stdin p); [|injection Hw as <-; assumption].
      destruct (stdin_write_throws _); [discriminate|].
      injection Hw as <-. apply wf_set_written. exact W4.
    + apply wf_catch; auto. apply wf_idle in W4. exact W4.
  - apply wf_catch; auto.
    apply (wf_idle (wf_dequeue W Hq)).
Qed.

(** Creating a promise and pushing its request keeps the invariant. *)
Lemma wf_push (req : Request Params) (s : Server) :
  wf s -> timeout req = commandTimeout (command req) ->
  wf (set_requestQueue
        (requestQueue s ++ [{| request := req; caller := next_call s |}])
        (set_next_call (S (next_call s)) s)).
Proof.
  intros [Wt Wi Ws Wq Wqi Wh] Hreq. constructor; simpl; auto.
  - eapply Forall_impl; [|exact Wt]. intros x Hx.
    eapply timer_ok_mono; eauto.
    intros c Hc Hin. rewrite map_app, in_app_iff in Hin. simpl in Hin.
    destruct Hin as [Hin|[Hin|[]]]; [assumption|lia].
  - eapply Forall_impl; [|exact Ws]. simpl. intros; lia.
  - apply Forall_app. split.
    + eapply Forall_impl; [|exact Wq]. intros e He.
      eapply entry_ok_mono; eauto. apply He.
    + constructor; [|constructor]. split; [simpl; lia|].
      split; [|assumption]. simpl. intros Hin.
      rewrite Forall_forall in Ws. apply Ws in Hin. lia.
  - rewrite map_app. simpl. apply NoDup_snoc; [assumption|].
    apply Forall_forall. intros c Hin.
    apply in_map_iff in Hin. destruct Hin as [e [<- Hin]].
    rewrite Forall_forall in Wq. apply Wq in Hin. apply Hin.
Qed.

(** Creating a promise and rejecting it at once keeps the invariant. *)
Lemma wf_reject_new (error : KError) (s : Server) :
  wf s ->
  wf (settle (next_call s) (Rejected error)
        (set_next_call (S (next_call s)) s)).
Proof.
  intros W.
  assert (Hfresh : ~ In (next_call s) (map fst (settled s))).
  { intros Hin. pose proof (wf_settled W) as F.
    rewrite Forall_forall in F. apply F in Hin. lia. }
  rewrite settle_fresh by assumption.
  assert (Hh : forall h, currentRequestHandler s = Some h ->
                         h_caller h <> next_call s).
  { intros h Hh. destruct (wf_handler_not_queued W Hh). lia. }
  destruct W as [Wt Wi Ws Wq Wqi Wh]. constructor; simpl; auto.
  - eapply Forall_impl; [|exact Wt]. intros x Hx.
    eapply timer_ok_mono; eauto.
  - rewrite map_app. apply Forall_app. split.
    + eapply Forall_impl; [|exact Ws]. simpl. intros; lia.
    + constructor; [simpl; lia|constructor].
  - rewrite Forall_forall in *. intros e He.
    destruct (Wq e He) as (H1 & H2 & H3).
    eapply entry_ok_mono; [apply Wq; assumption|lia|].
    rewrite map_app, in_app_iff. simpl. intros [H|[H|[]]]; [tauto|lia].
  - unfold handler_ok in *. simpl in *.
    destruct (currentRequestHandler s) as [h|]; [|assumption].
    destruct Wh as (? & Hs & Hex). repeat split; auto.
    rewrite map_app, in_app_iff. simpl. intros [H'|[H'|[]]]; [tauto|].
    apply (Hh h); auto.
Qed.

Lemma wf_callKicadScript (command : string) (params : Params) (s : Server) :
  wf s -> wf (snd (callKicadScript command params s)).
Proof.
  intros W. unfold callKicadScript. simpl.
  destruct (pythonProcess s) as [p|] eqn:Hp; simpl.
  - pose proof (@wf_push {| command := command; params := params;
                            timeout := commandTimeout command |} s W eq_refl)
      as W2.
    destruct (processingRequest s); [assumption|].
    apply wf_processNextRequest. assumption.
  - apply wf_reject_new. assumption.
Qed.

Lemma wf_tryParseResponse (s : Server) : wf s -> wf (tryParseResponse s).
Proof.
  intros W. unfold tryParseResponse.
  destruct (currentRequestHandler s) as [h|] eqn:Hh.
  - destruct (JSON_parse (responseBuffer s)) as [result|]; [|assumption].
    destruct (isNull result); [assumption|].
    destruct (wf_handler_not_queued W Hh) as [Hlt Hnq].
    apply wf_arm_drain. apply wf_settle; simpl; auto.
    change (wf (clearTimeout (timeoutHandle h)
                  (set_responseBuffer []
                     (set_processingRequest false
                        (set_currentRequestHandler None s))))).
    apply wf_clear; [|simpl; discriminate].
    apply wf_set_buffer, wf_idle. assumption.
  - destruct (truthy _); [apply wf_set_buffer|]; assumption.
Qed.

Lemma wf_fire (t : TimerId) (s : Server) : wf s -> wf (fire t s).
Proof.
  intros W. unfold fire, lookup_timer.
  destruct (find _ (timers s)) as [x|] eqn:Hf; [|assumption].
  apply find_id_Some in Hf. destruct Hf as [Hin Ht].
  pose proof (wf_timers W) as F. rewrite Forall_forall in F.
  pose proof (F x Hin) as [_ Hx].
  unfold runTask. destruct (t_task x) as [c d cmd|] eqn:Hk.
  - destruct Hx as (Hc & Hq & _).
    apply wf_arm_drain. apply wf_settle; simpl; auto.
    change (wf (clearTimeout t
                  (set_responseBuffer []
                     (set_processingRequest false
                        (set_currentRequestHandler None s))))).
    apply wf_clear; [|simpl; discriminate].
    apply wf_set_buffer, wf_idle. assumption.
  - apply wf_processNextRequest. apply wf_clear; [assumption|].
    intros h Hh E. pose proof (wf_handler W) as Wh.
    unfold handler_ok in Wh. rewrite Hh in Wh.
    destruct Wh as (_ & _ & d & cmd & Hy).
    assert (x = {| t_id := timeoutHandle h; t_delay := d;
                   t_task := DeadlineTask (h_caller h) d cmd |}) as ->.
    { eapply NoDup_map_inj; eauto using wf_timer_ids. simpl. lia. }
    discriminate.
Qed.

Lemma wf_step (s : Server) (e : Event) : wf s -> wf (step s e).
Proof.
  intros W. destruct e as [c p|chunk|t| |]; simpl.
  - apply wf_callKicadScript. assumption.
  - unfold handlePythonResponse. apply wf_tryParseResponse, wf_set_buffer.
    assumption.
  - apply wf_fire. assumption.
  - destruct W as [Wt Wi Ws Wq Wqi Wh]. constructor; simpl; auto.
  - unfold stop. destruct (pythonProcess s); [|assumption].
    destruct W as [Wt Wi Ws Wq Wqi Wh]. constructor; simpl; auto.
Qed.

Lemma wf_run (tr : list Event) (s : Server) : wf s -> wf (run s tr).
Proof.
  revert s. induction tr as [|e tr IH]; simpl; intros s W; [assumption|].
  apply IH, wf_step. assumption.
Qed.

Lemma reachable_wf (s : Server) : reachable s -> wf s.
Proof.
  intros (p & tr & _ & ->). apply wf_run, wf_started.
Qed.

Lemma reachable_step (s : Server) (e : Event) :
  reachable s -> reachable (step s e).
Proof.
  intros (p & tr & Hp & ->). exists p, (tr ++ [e]). split; [assumption|].
  unfold run. rewrite fold_left_app. reflexivity.
Qed.

(** ** Promises are numbered in the order of the calls *)

Ltac split_cases :=
  repeat first
    [ progress simpl
    | match goal with
      | |- context [match ?x with _ => _ end] =>
          lazymatch x with
          | context [match _ with _ => _ end] => fail
          | _ => destruct x
          end
      end ];
  try reflexivity.

Lemma next_call_processNextRequest (s : Server) :
  next_call (processNextRequest s) = next_call s.
Proof.
  unfold processNextRequest, processNextRequest_catch, stdin_write, settle,
    setTimeout.
  split_cases.
Qed.

Lemma next_call_fire (t : TimerId) (s : Server) :
  next_call (fire t s) = next_call s.
Proof.
  unfold fire, runTask. destruct (lookup_timer t s) as [x|]; [|reflexivity].
  destruct (t_task x).
  - unfold settle. split_cases.
  - rewrite next_call_processNextRequest. reflexivity.
Qed.

Lemma next_call_step (s : Server) (e : Event) :
  next_call (step s e)
  = next_call s + (if is_submit e then 1 else 0).
Proof.
  destruct e as [c p|chunk|t| |]; simpl.
  - unfold callKicadScript. simpl.
    destruct (pythonProcess s); simpl.
    + destruct (processingRequest s); simpl;
        [|rewrite next_call_processNextRequest; simpl]; lia.
    + unfold settle. split_cases; lia.
  - unfold handlePythonResponse, tryParseResponse, settle. split_cases; lia.
  - rewrite next_call_fire. lia.
  - lia.
  - unfold stop. split_cases; lia.
Qed.

Lemma next_call_run (tr : list Event) (s : Server) :
  next_call (run s tr) = next_call s + List.length (filter is_submit tr).
Proof.
  revert s. induction tr as [|e tr IH]; simpl; intros s; [lia|].
  rewrite IH, next_call_step. destruct (is_submit e); simpl; lia.
Qed.

(** While a call is pending no handler writes to the child. *)
Lemma no_write_while_pending (h : RequestHandler) (e : Event) (s : Server) :
  wf s -> currentRequestHandler s = Some h ->
  stdin_written (step s e) = stdin_written s.
Proof.
  intros W Hh. pose proof (wf_handler W) as Wh. unfold handler_ok in Wh.
  rewrite Hh in Wh. destruct Wh as (Hb & _).
  assert (Hp : forall x : Server,
             processingRequest x = true -> processNextRequest x = x).
  { intros x Hx. unfold processNextRequest. rewrite Hx.
    destruct (requestQueue x); reflexivity. }
  destruct e as [c p|chunk|t| |]; simpl.
  - unfold callKicadScript. simpl.
    destruct (pythonProcess s); simpl; [rewrite Hb; reflexivity|].
    unfold settle. split_cases.
  - unfold handlePythonResponse, tryParseResponse, settle. split_cases.
  - unfold fire, runTask. destruct (lookup_timer t s) as [x|]; [|reflexivity].
    destruct (t_task x); [unfold settle; split_cases|].
    rewrite Hp; reflexivity || exact Hb.
  - reflexivity.
  - unfold stop. split_cases.
Qed.

(** ** Serial service, while the child is alive *)

Section Alive.

Hypothesis no_throw : forall line, stdin_write_throws line = false.

Lemma serial_started (p : ChildProcess) : serial (started p : Server).
Proof.
  constructor; simpl; try reflexivity; try discriminate; try lia.
Qed.

Lemma wf_handler_None (s : Server) :
  wf s -> processingRequest s = false -> currentRequestHandler s = None.
Proof.
  intros W Hp. pose proof (wf_handler W) as H. unfold handler_ok in H.
  destruct (currentRequestHandler s); [|reflexivity].
  destruct H. congruence.
Qed.

Lemma serial_no_deadline (s : Server) :
  serial s -> currentRequestHandler s = None ->
  forall x, In x (timers s) -> is_drain x = true.
Proof.
  intros S Hh x Hin. destruct (is_drain x) eqn:E; [reflexivity|].
  destruct (serial_deadline S x Hin E) as [h [Hh' _]]. congruence.
Qed.

Lemma serial_processNextRequest (s : Server) :
  wf s -> serial s -> serial (processNextRequest s).
Proof.
  intros W S. unfold processNextRequest.
  destruct (requestQueue s) as [|e rest] eqn:Hq; [assumption|].
  destruct (processingRequest s) eqn:Hp; [assumption|].
  pose proof (wf_handler_None W Hp) as Hh.
  pose proof (serial_no_deadline S Hh) as Hdr.
  assert (Hfresh : ~ In (caller e) (map fst (settled s))).
  { pose proof (wf_queue W) as F. rewrite Hq in F.
    inversion F as [|? ? He _]; subst. apply He. }
  destruct S as [Sa So Sd Sw]. unfold in_flight in *.
  rewrite Hh, Hq in *. simpl in So, Sw.
  destruct (JSON_stringify (request e)) as [str|].
  - unfold setTimeout, stdin_write. simpl.
    destruct (pythonProcess s) as [p|] eqn:Hpp; [|congruence].
    assert (Hd : forall x,
      In x (timers s ++
            [{| t_id := next_timer s;
                t_delay := if (timeout (request e) =? 0)%Z then 30000%Z
                           else timeout (request e);
                t_task := DeadlineTask (caller e)
                  (if (timeout (request e) =? 0)%Z then 30000%Z
                   else timeout (request e)) (command (request e)) |}]) ->
      is_drain x = false ->
      exists h, Some {| h_caller := caller e; timeoutHandle := next_timer s |}
                = Some h /\ t_id x = timeoutHandle h).
    { intros x Hin E. apply in_app_iff in Hin.
      destruct Hin as [Hin|[<-|[]]]; [rewrite Hdr in E by assumption;
                                      discriminate|].
      eexists. split; reflexivity. }
    destruct (stdin p); [rewrite no_throw|];
      (constructor; simpl; unfold in_flight; simpl;
       [rewrite Hpp; discriminate|exact So|exact Hd|]).
    + rewrite length_app. simpl. lia.
    + lia.
  - unfold processNextRequest_catch.
    rewrite settle_fresh by (simpl; assumption).
    constructor; simpl; unfold in_flight; simpl.
    + assumption.
    + rewrite map_app, <- app_assoc. exact So.
    + intros x Hin E. apply in_app_iff in Hin.
      destruct Hin as [Hin|[<-|[]]]; [rewrite Hdr in E by assumption|];
        discriminate.
    + rewrite length_app. simpl. lia.
Qed.

Lemma serial_callKicadScript (command : string) (params : Params) (s : Server) :
  wf s -> serial s -> serial (snd (callKicadScript command params s)).
Proof.
  intros W S. pose proof (wf_callKicadScript command params W) as W'.
  unfold callKicadScript in *. simpl in *.
  destruct (pythonProcess s) as [p|] eqn:Hpp; [|destruct S; congruence].
  simpl in *.
  match goal with |- serial (if _ then ?x else _) => assert (S1 : serial x) end.
  { destruct S as [Sa So Sd Sw]. constructor; simpl; auto.
    unfold in_flight in *. simpl. rewrite map_app. simpl.
    rewrite !app_assoc. rewrite <- app_assoc with (n := map caller _).
    rewrite So.
    change (0 :: seq 1 (next_call s)) with (seq 0 (S (next_call s))).
    rewrite seq_S. reflexivity. }
  destruct (processingRequest s) eqn:Hp; [assumption|].
  apply serial_processNextRequest; [|assumption].
  apply wf_push; [assumption|reflexivity].
Qed.

(** The state after a completion: the pending call's timer is gone, its
    promise is settled, the slot is empty and a drain callback is armed. *)
Lemma serial_complete (t : TimerId) (h : RequestHandler)
    (o : Settlement Value) (s : Server) :
  wf s -> serial s -> currentRequestHandler s = Some h ->
  timeoutHandle h = t ->
  serial (snd (setTimeout DrainTask 0
                 (settle (h_caller h) o
                    (set_processingRequest false
                       (set_currentRequestHandler None
                          (set_responseBuffer [] (clearTimeout t s))))))).
Proof.
  intros W S Hh Ht. pose proof (wf_handler W) as Wh.
  unfold handler_ok in Wh. rewrite Hh in Wh. destruct Wh as (_ & Hfresh & _).
  rewrite settle_fresh by (simpl; assumption).
  destruct S as [Sa So Sd Sw]. unfold in_flight in *. rewrite Hh in *.
  constructor; simpl; unfold in_flight; simpl.
  - assumption.
  - rewrite map_app, <- app_assoc. exact So.
  - intros x Hin E. apply in_app_iff in Hin.
    destruct Hin as [Hin|[<-|[]]]; [|discriminate].
    apply filter_In in Hin. destruct Hin as [Hin Hne].
    destruct (Sd x Hin E) as (h' & Hh' & Hid).
    injection Hh' as <-. rewrite Hid, Ht, Nat.eqb_refl in Hne. discriminate.
  - rewrite length_app. simpl in *. lia.
Qed.

Lemma serial_tryParseResponse (s : Server) :
  wf s -> serial s -> serial (tryParseResponse s).
Proof.
  intros W S. unfold tryParseResponse.
  destruct (currentRequestHandler s) as [h|] eqn:Hh.
  - destruct (JSON_parse (responseBuffer s)) as [result|]; [|assumption].
    destruct (isNull result); [assumption|].
    apply serial_complete; auto.
  - destruct (truthy _); [|assumption].
    destruct S as [Sa So Sd Sw]. constructor; simpl; auto.
Qed.

Lemma serial_fire (t : TimerId) (s : Server) :
  wf s -> serial s -> serial (fire t s).
Proof.
  intros W S. unfold fire, lookup_timer.
  destruct (find _ (timers s)) as [x|] eqn:Hf; [|assumption].
  apply find_id_Some in Hf. destruct Hf as [Hin Ht].
  unfold runTask. destruct (t_task x) as [c d cmd|] eqn:Hk.
  - (* a deadline timer that is armed is the pending call's *)
    destruct (serial_deadline S x Hin) as (h & Hh & Hid).
    { unfold is_drain. rewrite Hk. reflexivity. }
    pose proof (wf_handler W) as Wh. unfold handler_ok in Wh.
    rewrite Hh in Wh. destruct Wh as (_ & _ & d' & cmd' & Hy).
    assert (x = {| t_id := timeoutHandle h; t_delay := d';
                   t_task := DeadlineTask (h_caller h) d' cmd' |}) as E.
    { eapply NoDup_map_inj; eauto using wf_timer_ids. }
    rewrite E in Hk. simpl in Hk. injection Hk as <- <- <-.
    apply serial_complete; auto. congruence.
  - assert (Hne : forall h, currentRequestHandler s = Some h ->
                            timeoutHandle h <> t).
    { intros h Hh E. pose proof (wf_handler W) as Wh.
      unfold handler_ok in Wh. rewrite Hh in Wh.
      destruct Wh as (_ & _ & d & cmd & Hy).
      assert (x = {| t_id := timeoutHandle h; t_delay := d;
                     t_task := DeadlineTask (h_caller h) d cmd |}) as ->.
      { eapply NoDup_map_inj; eauto using wf_timer_ids. simpl. lia. }
      discriminate. }
    apply serial_processNextRequest; [apply wf_clear; assumption|].
    destruct S as [Sa So Sd Sw]. constructor; simpl; auto.
    intros y Hy E. apply filter_In in Hy. apply Sd; tauto.
Qed.

Lemma serial_step (s : Server) (e : Event) :
  wf s -> serial s -> alive_event e = true -> serial (step s e).
Proof.
  intros W S A. destruct e as [c p|chunk|t| |]; simpl; try discriminate.
  - apply serial_callKicadScript; assumption.
  - unfold handlePythonResponse.
    apply serial_tryParseResponse; [apply wf_set_buffer; assumption|].
    destruct S as [Sa So Sd Sw]. constructor; simpl; auto.
  - apply serial_fire; assumption.
Qed.

Lemma serial_run (tr : list Event) (s : Server) :
  wf s -> serial s -> forallb alive_event tr = true -> serial (run s tr).
Proof.
  revert s. induction tr as [|e tr IH]; simpl; intros s W S A; [assumption|].
  apply andb_true_iff in A. destruct A as [A1 A2].
  apply IH; [apply wf_step|apply serial_step|]; assumption.
Qed.

(** *** With a child that answers in time, promises are resolved *)

Hypothesis stringify_total : forall r, JSON_stringify r <> None.

Lemma settled_processNextRequest (s : Server) :
  pythonProcess s <> None ->
  settled (processNextRequest s) = settled s.
Proof.
  intros Hp. unfold processNextRequest.
  destruct (requestQueue s) as [|e rest]; [reflexivity|].
  destruct (processingRequest s); [reflexivity|].
  destruct (JSON_stringify (request e)) as [str|] eqn:E;
    [|apply stringify_total in E; contradiction].
  unfold stdin_write, setTimeout. simpl.
  destruct (pythonProcess s) as [p|]; [|congruence].
  destruct (stdin p); [rewrite no_throw|]; reflexivity.
Qed.

Lemma resolved_settle (c : CallId) (v : Value) (s : Server) :
  forallb is_resolved (settled s) = true ->
  forallb is_resolved (settled (settle c (Resolved v) s)) = true.
Proof.
  intros H. destruct (settle_cases c (Resolved v) s) as [[_ ->]|[_ ->]];
    [assumption|].
  simpl. rewrite forallb_app, H. reflexivity.
Qed.

Lemma resolved_step (s : Server) (e : Event) :
  serial s -> responsive_event s e = true ->
  forallb is_resolved (settled s) = true ->
  forallb is_resolved (settled (step s e)) = true.
Proof.
  intros S He H. pose proof (serial_alive S) as Hp.
  destruct e as [c p|chunk|t| |]; simpl in *; try discriminate.
  - unfold callKicadScript. simpl.
    destruct (pythonProcess s) eqn:Hpp; [|congruence]. simpl.
    destruct (processingRequest s); [assumption|].
    rewrite settled_processNextRequest; simpl; [assumption|congruence].
  - unfold handlePythonResponse, tryParseResponse. simpl.
    destruct (currentRequestHandler s) as [h|].
    + destruct (JSON_parse _) as [result|]; [|assumption].
      destruct (isNull result); [assumption|].
      apply (@resolved_settle (h_caller h) result
               (set_processingRequest false
                  (set_currentRequestHandler None
                     (set_responseBuffer []
                        (clearTimeout (timeoutHandle h)
                           (set_responseBuffer
                              (responseBuffer s ++ toString chunk) s)))))).
      assumption.
    + destruct (truthy _); assumption.
  - unfold fire. destruct (lookup_timer t s) as [x|]; [|assumption].
    unfold is_drain in He. unfold runTask.
    destruct (t_task x); [discriminate|].
    rewrite settled_processNextRequest; assumption.
Qed.

Lemma responsive_alive (s : Server) (e : Event) :
  responsive_event s e = true -> alive_event e = true.
Proof. destruct e; simpl; auto. Qed.

Lemma resolved_run (tr : list Event) (s : Server) :
  wf s -> serial s -> responsive s tr = true ->
  forallb is_resolved (settled s) = true ->
  forallb is_resolved (settled (run s tr)) = true.
Proof.
  revert s. induction tr as [|e tr IH]; simpl; intros s W S A H;
    [assumption|].
  apply andb_true_iff in A. destruct A as [A1 A2].
  apply IH;
    [apply wf_step; assumption
    |apply serial_step; eauto using responsive_alive
    |assumption
    |apply resolved_step; assumption].
Qed.

(** *** A child that answers every request *)

Lemma drains_filter (f : Timer -> bool) (l : list Timer) :
  filter is_drain l = [] -> filter is_drain (filter f l) = [].
Proof.
  induction l as [|a l IH]; simpl; [reflexivity|].
  destruct (is_drain a) eqn:E; [discriminate|].
  intros H. destruct (f a); simpl; [rewrite E|]; auto.
Qed.

Lemma answer_step (doc : Buffer) (v : Value) (h : RequestHandler)
    (s : Server) :
  wf s -> pythonProcess s <> None -> currentRequestHandler s = Some h ->
  responseBuffer s = [] -> filter is_drain (timers s) = [] ->
  parses_to doc v ->
  let s' := answer s doc in
  wf s' /\ pythonProcess s' <> None /\ responseBuffer s' = [] /\
  filter is_drain (timers s') = [] /\
  settled s' = settled s ++ [(h_caller h, Resolved v)] /\
  match requestQueue s with
  | [] => currentRequestHandler s' = None /\ requestQueue s' = []
  | e :: rest =>
      currentRequestHandler s' =
        Some {| h_caller := caller e; timeoutHandle := S (next_timer s) |} /\
      requestQueue s' = rest
  end.
Proof.
  intros W Hp Hh Hb Hd [Hparse Hnull] s'.
  assert (W' : wf s').
  { unfold s', answer, next_turn.
    assert (G : forall l (x : Server), wf x ->
                wf (fold_left (fun s x => fire (t_id x) s) l x)).
    { induction l as [|a l IH]; simpl; intros x Wx; auto using wf_fire. }
    apply G. unfold handlePythonResponse.
    apply wf_tryParseResponse, wf_set_buffer. assumption. }
  split; [exact W'|]. clear W'.
  pose proof (wf_handler W) as Wh. unfold handler_ok in Wh.
  rewrite Hh in Wh. destruct Wh as (Hbusy & Hfresh & _).
  pose proof (wf_ids_lt W) as Hlt.
  assert (Hlt' : Forall (fun t => t < next_timer s)
            (map t_id (filter (fun x => negb (t_id x =? timeoutHandle h))
                         (timers s)))).
  { apply Forall_forall. intros t Ht. apply in_map_iff in Ht.
    destruct Ht as (x & <- & Hx). apply filter_In in Hx.
    eapply wf_timer_lt; [eassumption|tauto]. }
  assert (Hdrain :
    find (fun x => t_id x =? next_timer s)
      (filter (fun x => negb (t_id x =? timeoutHandle h)) (timers s) ++
       [{| t_id := next_timer s; t_delay := 0; t_task := DrainTask |}])
    = Some {| t_id := next_timer s; t_delay := 0; t_task := DrainTask |}).
  { apply (@find_snoc_fresh _ {| t_id := next_timer s |}). exact Hlt'. }
  set (A := filter (fun x => negb (t_id x =? timeoutHandle h)) (timers s))
    in *.
  set (Y := set_timers A (S (next_timer s))
              (set_settled (settled s ++ [(h_caller h, Resolved v)])
                 (set_processingRequest false
                    (set_currentRequestHandler None
                       (set_responseBuffer [] s))))).
  assert (HA : filter is_drain A = [])
    by (apply drains_filter; assumption).
  assert (E : s' = processNextRequest Y).
  { unfold s', answer, handlePythonResponse, tryParseResponse.
    cbn [currentRequestHandler responseBuffer set_responseBuffer].
    rewrite Hh, Hb. cbn [app]. rewrite Hparse, Hnull.
    rewrite settle_fresh by (simpl; assumption).
    unfold next_turn, setTimeout. simpl. fold A.
    rewrite filter_app, HA. simpl.
    unfold fire, lookup_timer. simpl. fold A. rewrite Hdrain. simpl.
    f_equal. unfold clearTimeout, Y. simpl. fold A.
    rewrite filter_app. simpl. rewrite Nat.eqb_refl. simpl.
    rewrite app_nil_r, filter_fresh by assumption. reflexivity. }
  clearbody s'. subst s' Y.
  unfold processNextRequest. simpl.
  destruct (requestQueue s) as [|e rest] eqn:Hq; simpl.
  - repeat split; auto.
  - destruct (JSON_stringify (request e)) as [str|] eqn:E;
      [|apply stringify_total in E; contradiction].
    unfold stdin_write. simpl.
    destruct (pythonProcess s) as [p|] eqn:Hpp; [|congruence].
    destruct (stdin p); [rewrite no_throw|]; simpl;
      rewrite filter_app, HA; simpl; repeat split; auto;
      rewrite Hpp; discriminate.
Qed.

Lemma answer_all (docs : list Buffer) (vs : list Value) :
  Forall2 parses_to docs vs ->
  forall (s : Server) (h : RequestHandler),
  wf s -> pythonProcess s <> None -> currentRequestHandler s = Some h ->
  responseBuffer s = [] -> filter is_drain (timers s) = [] ->
  List.length docs = S (List.length (requestQueue s)) ->
  let s' := fold_left answer docs s in
  settled s' =
    settled s ++
    combine (h_caller h :: map caller (requestQueue s))
      (map (@Resolved _) vs) /\
  currentRequestHandler s' = None /\ requestQueue s' = [].
Proof.
  induction 1 as [|doc v docs vs Hdoc Hrest IH]; intros s h W Hp Hh Hb Hd Hn;
    [discriminate|].
  destruct (answer_step W Hp Hh Hb Hd Hdoc)
    as (W1 & Hp1 & Hb1 & Hd1 & Hs1 & Hq1).
  simpl in *. destruct (requestQueue s) as [|e rest]; simpl in *.
  - destruct docs; [|discriminate]. inversion Hrest; subst. simpl.
    rewrite Hs1. tauto.
  - destruct Hq1 as [Hh1 Hq1].
    specialize (IH (answer s doc) _ W1 Hp1 Hh1 Hb1 Hd1).
    rewrite Hq1, Hs1 in IH. simpl in IH.
    rewrite <- app_assoc in IH. apply IH. lia.
Qed.

(** The state after a burst of calls: nothing is settled, and the first
    call is pending as soon as there is one. *)
Lemma burst_state (reqs : list (string * Params)) (s : Server) :
  wf s -> serial s ->
  settled s = [] -> responseBuffer s = [] -> filter is_drain (timers s) = [] ->
  (next_call s = 0 \/ currentRequestHandler s <> None) ->
  let s' := run s (map submit_of reqs) in
  wf s' /\ serial s' /\
  settled s' = [] /\ responseBuffer s' = [] /\
  filter is_drain (timers s') = [] /\
  (reqs <> [] -> currentRequestHandler s' <> None) /\
  next_call s' = next_call s + List.length reqs.
Proof.
  revert s. induction reqs as [|[c a] reqs IH]; intros s W S Hs Hb Hd Hn;
    simpl.
  - split; [exact W|]. split; [exact S|].
    repeat split; auto; try congruence; lia.
  - assert (W1 : wf (step s (Submit c a))) by (apply wf_step; assumption).
    assert (S1 : serial (step s (Submit c a)))
      by (apply serial_step; auto).
    assert (H1 : settled (step s (Submit c a)) = [] /\
                 responseBuffer (step s (Submit c a)) = [] /\
                 filter is_drain (timers (step s (Submit c a))) = [] /\
                 currentRequestHandler (step s (Submit c a)) <> None).
    { pose proof (serial_alive S) as Hp. pose proof (serial_order S) as Ho.
      pose proof (wf_handler W) as Wh. unfold handler_ok in Wh.
      simpl. unfold callKicadScript. simpl.
      destruct (pythonProcess s) as [p|] eqn:Hpp; [|congruence]. simpl.
      destruct (processingRequest s) eqn:Hbusy; simpl.
      - destruct (currentRequestHandler s); [|congruence].
        repeat split; auto. discriminate.
      - destruct (currentRequestHandler s) eqn:Hh; [destruct Wh; congruence|].
        destruct Hn as [Hn|Hn]; [|congruence].
        unfold in_flight in Ho. rewrite Hh, Hs, Hn in Ho. simpl in Ho.
        destruct (requestQueue s) as [|e0 q0] eqn:Hq; [|discriminate].
        unfold processNextRequest. simpl. rewrite Hbusy.
        destruct (JSON_stringify _) as [str|] eqn:E;
          [|apply stringify_total in E; contradiction].
        unfold stdin_write. simpl. rewrite Hpp.
        destruct (stdin p); [rewrite no_throw|]; simpl;
          rewrite filter_app, Hd; simpl; repeat split; auto; discriminate. }
    destruct H1 as (Hs1 & Hb1 & Hd1 & Hh1).
    destruct (IH _ W1 S1 Hs1 Hb1 Hd1 (or_intror Hh1))
      as (W2 & S2 & Hs2 & Hb2 & Hd2 & Hh2 & Hn2).
    split; [exact W2|]. split; [exact S2|].
    do 3 (split; [assumption|]). split.
    + intros _. destruct reqs; [exact Hh1|apply Hh2; discriminate].
    + etransitivity; [exact Hn2|].
      rewrite (next_call_step s (Submit c a)). simpl. lia.
Qed.

(** N calls are made in a burst; the child then answers them one at a
    time, a turn passing after each answer.  Every promise is resolved,
    with the value of its answer, in the order of the calls. *)
Lemma burst_resolved_in_order (p : ChildProcess)
    (reqs : list (string * Params)) (docs : list Buffer)
    (vs : list Value) :
  reqs <> [] -> List.length docs = List.length reqs ->
  Forall2 parses_to docs vs ->
  let s : Server :=
    fold_left answer docs (run (started p) (map submit_of reqs)) in
  settled s = combine (seq 0 (List.length reqs)) (map (@Resolved _) vs) /\
  currentRequestHandler s = None /\ requestQueue s = [].
Proof.
  intros Hne Hlen Hdocs.
  destruct (@burst_state reqs (started p)) as (W & S & Hs & Hb & Hd & Hh & Hn);
    auto using wf_started, serial_started.
  specialize (Hh Hne). simpl in Hn.
  destruct (currentRequestHandler _) as [h|] eqn:Hh'; [|congruence].
  pose proof (serial_order S) as Ho. unfold in_flight in Ho.
  rewrite Hh', Hs, Hn in Ho. simpl in Ho.
  assert (Hq : List.length (requestQueue (run (started p) (map submit_of reqs)))
               = List.length reqs - 1).
  { apply (f_equal (@List.length _)) in Ho. simpl in Ho.
    rewrite length_map, length_seq in Ho. lia. }
  destruct (@answer_all docs vs Hdocs _ h W (serial_alive S) Hh' Hb Hd)
    as (H1 & H2 & H3).
  { rewrite Hq, Hlen. destruct reqs; [congruence|simpl; lia]. }
  cbv zeta. rewrite H1, Hs, app_nil_l.
  rewrite Ho. auto.
Qed.

End Alive.

(** * The claims *)

(** C2.  [callKicadScript] called when [pythonProcess] is null rejects the
    promise it returns before it returns, with the not-running error; the
    request is not pushed on the queue, nothing is written to the child,
    and the queue, the busy flag, the buffer, the pending call and the
    timers are what they were. *)
Theorem submit_without_child_rejects (command : string) (params : Params)
    (s : Server) :
  reachable s -> pythonProcess s = None ->
  let promise := fst (callKicadScript command params s) in
  let s' := snd (callKicadScript command params s) in
  promise = next_call s /\
  outcome promise s = None /\
  outcome promise s' = Some (Rejected ProcessNotRunning) /\
  settled s' = settled s ++ [(promise, Rejected ProcessNotRunning)] /\
  requestQueue s' = requestQueue s /\
  stdin_written s' = stdin_written s /\
  processingRequest s' = processingRequest s /\
  responseBuffer s' = responseBuffer s /\
  currentRequestHandler s' = currentRequestHandler s /\
  timers s' = timers s /\
  pythonProcess s' = None.
Proof.
  intros R Hp. apply reachable_wf in R.
  assert (Hfresh : ~ In (next_call s) (map fst (settled s))).
  { intros Hin. pose proof (wf_settled R) as F.
    rewrite Forall_forall in F. apply F in Hin. lia. }
  unfold callKicadScript. simpl. rewrite Hp. simpl.
  rewrite settle_fresh by assumption. simpl.
  repeat split; try assumption.
  - apply outcome_in_None. assumption.
  - unfold outcome. simpl. rewrite outcome_in_app.
    apply outcome_in_None in Hfresh. rewrite Hfresh, Nat.eqb_refl. reflexivity.
Qed.

(** C8.  [stop] kills the child, if there is one, and nulls the handle;
    it settles no promise and leaves the queue, the buffer, the busy flag,
    the pending call and its timer as they were. *)
Theorem stop_only_clears_handle (s : Server) :
  pythonProcess (stop s) = None /\
  kill_signals (stop s) =
    kill_signals s + match pythonProcess s with Some _ => 1 | None => 0 end /\
  settled (stop s) = settled s /\
  (forall c, outcome c (stop s) = outcome c s) /\
  requestQueue (stop s) = requestQueue s /\
  responseBuffer (stop s) = responseBuffer s /\
  processingRequest (stop s) = processingRequest s /\
  currentRequestHandler (stop s) = currentRequestHandler s /\
  timers (stop s) = timers s /\
  stdin_written (stop s) = stdin_written s.
Proof.
  unfold stop, outcome.
  destruct (pythonProcess s) eqn:Hp; simpl; repeat split; auto; lia.
Qed.

(** C10.  A chunk of the child's stdout that arrives while there is no
    pending call settles no promise and changes nothing but the buffer:
    the buffer is emptied when, with the chunk appended, it holds a
    character that is not white space, and keeps the white space
    otherwise. *)
Theorem stray_output_settles_nothing (data : Buffer) (s : Server) :
  currentRequestHandler s = None ->
  let s' := handlePythonResponse data s in
  s' = set_responseBuffer
         (if forallb isWhiteSpace (responseBuffer s ++ toString data)
          then responseBuffer s ++ toString data else []) s /\
  settled s' = settled s /\
  (forall c, outcome c s' = outcome c s) /\
  requestQueue s' = requestQueue s /\
  processingRequest s' = processingRequest s /\
  currentRequestHandler s' = None /\
  timers s' = timers s /\
  stdin_written s' = stdin_written s /\
  pythonProcess s' = pythonProcess s.
Proof.
  intros Hh. unfold handlePythonResponse, tryParseResponse, outcome. simpl.
  rewrite Hh, truthy_trim.
  destruct (forallb isWhiteSpace (responseBuffer s ++ toString data)); simpl;
    repeat split; auto.
Qed.

(** ** What a dispatch and a deadline do *)

Lemma processNextRequest_dispatch (e : QueueEntry) (rest : list QueueEntry)
    (requestStr : JSString) (s : Server) :
  processingRequest s = false -> requestQueue s = e :: rest ->
  JSON_stringify (request e) = Some requestStr ->
  processNextRequest s =
  match stdin_write (requestStr ++ newline) (dispatched e rest s) with
  | Some s' => s'
  | None => processNextRequest_catch WriteError (caller e) (dispatched e rest s)
  end.
Proof.
  intros Hp Hq Hs. unfold processNextRequest. rewrite Hq, Hp, Hs. reflexivity.
Qed.

Lemma dispatched_timer (e : QueueEntry) (rest : list QueueEntry) (s : Server) :
  wf s ->
  lookup_timer (next_timer s) (dispatched e rest s) =
  Some {| t_id := next_timer s; t_delay := timeoutDuration_of e;
          t_task := DeadlineTask (caller e) (timeoutDuration_of e)
                      (command (request e)) |}.
Proof.
  intros W. unfold lookup_timer, dispatched. simpl.
  apply (@find_snoc_fresh (timers s) {| t_id := next_timer s |}).
  apply wf_ids_lt. assumption.
Qed.

Lemma lookup_timer_In_lt (t : TimerId) (x : Timer) (s : Server) :
  wf s -> lookup_timer t s = Some x -> t < next_timer s.
Proof.
  intros W H. apply find_id_Some in H. destruct H as [Hin <-].
  eapply wf_timer_lt; eassumption.
Qed.

(** The deadline timer of the pending call is armed, and this is what its
    callback does. *)
Lemma pending_deadline (h : RequestHandler) (s : Server) :
  wf s -> currentRequestHandler s = Some h ->
  exists d cmd,
    lookup_timer (timeoutHandle h) s =
      Some {| t_id := timeoutHandle h; t_delay := d;
              t_task := DeadlineTask (h_caller h) d cmd |} /\
    d = commandTimeout cmd /\
    fire (timeoutHandle h) s =
      snd (setTimeout DrainTask 0
             (set_settled
                (settled s ++ [(h_caller h, Rejected (CommandTimeout d cmd))])
                (set_processingRequest false
                   (set_currentRequestHandler None
                      (set_responseBuffer []
                         (clearTimeout (timeoutHandle h) s)))))).
Proof.
  intros W Hh. pose proof (wf_handler W) as Wh. unfold handler_ok in Wh.
  rewrite Hh in Wh. destruct Wh as (_ & Hfresh & d & cmd & Hin).
  exists d, cmd.
  assert (Hl : lookup_timer (timeoutHandle h) s =
               Some {| t_id := timeoutHandle h; t_delay := d;
                       t_task := DeadlineTask (h_caller h) d cmd |}).
  { apply (@find_id_In (timers s) {| t_id := timeoutHandle h |});
      [apply wf_timer_ids|]; assumption. }
  split; [assumption|]. split.
  - pose proof (wf_timers W) as F. rewrite Forall_forall in F.
    apply F in Hin. destruct Hin as [_ Hin]. simpl in Hin. tauto.
  - unfold fire. rewrite Hl. simpl.
    rewrite settle_fresh by (simpl; assumption). reflexivity.
Qed.

(** C3.  The timeout given to a request is a function of its command:
    600000 for the four long-running commands, 30000 for every other one;
    run_drc gets 600000 and get_board_info 30000.  The deadline timer of a
    request that is dispatched by its own [callKicadScript] call is armed
    with that value, and so is every deadline timer that is ever armed. *)
Theorem timeout_policy :
  (forall c, In c longRunningCommands -> commandTimeout c = 600000%Z) /\
  (forall c, ~ In c longRunningCommands -> commandTimeout c = 30000%Z) /\
  commandTimeout "run_drc" = 600000%Z /\
  commandTimeout "get_board_info" = 30000%Z /\
  (forall (s : Server) command params requestStr,
      reachable s -> pythonProcess s <> None ->
      processingRequest s = false -> requestQueue s = [] ->
      JSON_stringify {| command := command; params := params;
                        timeout := commandTimeout command |}
        = Some requestStr ->
      stdin_write_throws (requestStr ++ newline) = false ->
      let s' := snd (callKicadScript command params s) in
      currentRequestHandler s' =
        Some {| h_caller := next_call s; timeoutHandle := next_timer s |} /\
      lookup_timer (next_timer s) s' =
        Some {| t_id := next_timer s; t_delay := commandTimeout command;
                t_task := DeadlineTask (next_call s) (commandTimeout command)
                            command |}) /\
  (forall (s : Server) x c d cmd,
      reachable s -> In x (timers s) -> t_task x = DeadlineTask c d cmd ->
      d = commandTimeout cmd /\ t_delay x = commandTimeout cmd).
Proof.
  assert (Hin : forall c, includes longRunningCommands c = true <->
                          In c longRunningCommands).
  { intros c. unfold includes. rewrite existsb_exists. split.
    - intros (x & Hx & E). apply String.eqb_eq in E. subst. assumption.
    - intros H. exists c. split; [assumption|apply String.eqb_refl]. }
  split; [|split; [|split; [|split; [|split]]]]; try reflexivity.
  - intros c H. apply Hin in H. unfold commandTimeout. rewrite H. reflexivity.
  - intros c H. unfold commandTimeout.
    destruct (includes longRunningCommands c) eqn:E; [|reflexivity].
    apply Hin in E. tauto.
  - intros s command params requestStr R Hp Hb Hq Hs Hw s'. subst s'.
    apply reachable_wf in R.
    unfold callKicadScript. simpl.
    destruct (pythonProcess s) as [p|] eqn:Hpp; [|congruence]. simpl.
    rewrite Hb, Hq. simpl.
    pose proof (@wf_push {| command := command; params := params;
                            timeout := commandTimeout command |} s R eq_refl)
      as W2. rewrite Hq in W2. simpl in W2.
    erewrite processNextRequest_dispatch; simpl; eauto.
    match goal with |- context [stdin_write ?l ?x] =>
      pose proof (@dispatched_timer
        {| request := {| command := command; params := params;
                         timeout := commandTimeout command |};
           caller := next_call s |} [] _ W2) as Ht;
      assert (Hsw : stdin_write l x
                    = Some (if stdin p
                            then set_stdin_written (stdin_written x ++ [l]) x
                            else x)) end.
    { unfold stdin_write. simpl. rewrite Hpp.
      destruct (stdin p); [rewrite Hw|]; reflexivity. }
    rewrite Hsw. unfold timeoutDuration_of in Ht. simpl in Ht.
    rewrite commandTimeout_nonzero in Ht.
    destruct (stdin p); simpl; split; try reflexivity; exact Ht.
  - intros s x c d cmd R Hx Hk. apply reachable_wf in R.
    pose proof (wf_timers R) as F. rewrite Forall_forall in F.
    apply F in Hx. destruct Hx as [_ Hx]. rewrite Hk in Hx.
    destruct Hx as (_ & _ & H1 & H2). split; congruence.
Qed.

(** C5.  When the deadline timer of the pending call fires, its promise is
    rejected with the time-out error, the buffer is emptied, the
    pending-call slot is emptied and the busy flag is reset; nothing is
    written by the callback itself, which arms a zero-delay drain
    callback.  When that callback runs, on the next turn, and a request is
    queued for a child that is there, the request is written to the child
    and becomes the pending call. *)
Theorem deadline_fire_rejects_and_resumes (h : RequestHandler) (s : Server) :
  reachable s -> currentRequestHandler s = Some h ->
  exists d cmd,
    lookup_timer (timeoutHandle h) s =
      Some {| t_id := timeoutHandle h; t_delay := d;
              t_task := DeadlineTask (h_caller h) d cmd |} /\
    d = commandTimeout cmd /\
    let s1 := fire (timeoutHandle h) s in
    outcome (h_caller h) s = None /\
    outcome (h_caller h) s1 = Some (Rejected (CommandTimeout d cmd)) /\
    settled s1 = settled s ++ [(h_caller h, Rejected (CommandTimeout d cmd))] /\
    responseBuffer s1 = [] /\
    currentRequestHandler s1 = None /\
    processingRequest s1 = false /\
    requestQueue s1 = requestQueue s /\
    stdin_written s1 = stdin_written s /\
    lookup_timer (timeoutHandle h) s1 = None /\
    lookup_timer (next_timer s) s1 =
      Some {| t_id := next_timer s; t_delay := 0; t_task := DrainTask |} /\
    (forall e rest requestStr p,
        requestQueue s = e :: rest -> pythonProcess s = Some p ->
        stdin p = true -> JSON_stringify (request e) = Some requestStr ->
        stdin_write_throws (requestStr ++ newline) = false ->
        let s2 := fire (next_timer s) s1 in
        stdin_written s2 = stdin_written s ++ [requestStr ++ newline] /\
        currentRequestHandler s2 =
          Some {| h_caller := caller e; timeoutHandle := S (next_timer s) |} /\
        processingRequest s2 = true /\
        requestQueue s2 = rest).
Proof.
  intros R Hh. apply reachable_wf in R.
  destruct (pending_deadline R Hh) as (d & cmd & Hl & Hd & Hf).
  exists d, cmd. split; [exact Hl|]. split; [exact Hd|].
  pose proof (wf_handler R) as Wh. unfold handler_ok in Wh.
  rewrite Hh in Wh. destruct Wh as (_ & Hfresh & _).
  apply outcome_in_None in Hfresh.
  assert (Hlt : Forall (fun t => t < next_timer s)
                  (map t_id (filter (fun x => negb (t_id x =? timeoutHandle h))
                               (timers s)))).
  { apply Forall_forall. intros t Ht. apply in_map_iff in Ht.
    destruct Ht as (x & <- & Hx). apply filter_In in Hx.
    eapply wf_timer_lt; [eassumption|tauto]. }
  assert (Hdrain :
    find (fun x => t_id x =? next_timer s)
      (filter (fun x => negb (t_id x =? timeoutHandle h)) (timers s) ++
       [{| t_id := next_timer s; t_delay := 0; t_task := DrainTask |}])
    = Some {| t_id := next_timer s; t_delay := 0; t_task := DrainTask |}).
  { apply (@find_snoc_fresh _ {| t_id := next_timer s |}). exact Hlt. }
  cbv zeta. rewrite Hf. clear Hf.
  split; [exact Hfresh|]. split.
  { unfold outcome. simpl. rewrite outcome_in_app, Hfresh, Nat.eqb_refl.
    reflexivity. }
  do 6 (split; [reflexivity|]). split; [|split].
  - unfold lookup_timer. simpl.
    destruct (find (fun x => t_id x =? timeoutHandle h) _) as [x|] eqn:E;
      [|reflexivity].
    apply find_id_Some in E. destruct E as [Hin E].
    apply in_app_iff in Hin. destruct Hin as [Hin|[<-|[]]].
    + apply filter_In in Hin. rewrite E, Nat.eqb_refl in Hin.
      destruct Hin; discriminate.
    + simpl in E. apply lookup_timer_In_lt in Hl; [lia|assumption].
  - exact Hdrain.
  - intros e rest requestStr p Hq Hp Hs Hstr Hw.
    cbv zeta. unfold fire, lookup_timer. simpl timers.
    rewrite Hdrain. cbn [t_task runTask].
    erewrite processNextRequest_dispatch; simpl; eauto.
    unfold stdin_write. simpl. rewrite Hp, Hs, Hw. simpl.
    repeat split; reflexivity.
Qed.

(** C7, as the code has it.  The [exit] listener nulls the handle and
    does nothing else: it settles no promise (no crash error is raised for
    the pending call or for the queue) and leaves the pending call, the
    queue and the timers as they were.  The pending call is not left
    waiting for ever: its deadline timer is still armed, and rejects it
    with the time-out error when it fires. *)
Theorem exit_leaves_call_to_its_deadline (h : RequestHandler) (s : Server) :
  reachable s -> currentRequestHandler s = Some h ->
  let s1 := step s Exit in
  s1 = set_pythonProcess None s /\
  settled s1 = settled s /\
  outcome (h_caller h) s1 = None /\
  currentRequestHandler s1 = Some h /\
  requestQueue s1 = requestQueue s /\
  timers s1 = timers s /\
  exists d cmd,
    lookup_timer (timeoutHandle h) s1 =
      Some {| t_id := timeoutHandle h; t_delay := d;
              t_task := DeadlineTask (h_caller h) d cmd |} /\
    outcome (h_caller h) (fire (timeoutHandle h) s1)
    = Some (Rejected (CommandTimeout d cmd)).
Proof.
  intros R Hh s1.
  assert (W1 : wf s1) by (apply wf_step, reachable_wf; assumption).
  assert (Hh1 : currentRequestHandler s1 = Some h) by exact Hh.
  pose proof (wf_handler W1) as Wh. unfold handler_ok in Wh.
  rewrite Hh1 in Wh. destruct Wh as (_ & Hfresh & _).
  apply outcome_in_None in Hfresh.
  do 2 (split; [reflexivity|]). split; [exact Hfresh|].
  split; [exact Hh|]. do 2 (split; [reflexivity|]).
  destruct (pending_deadline W1 Hh1) as (d & cmd & Hl & _ & Hf).
  exists d, cmd. split; [exact Hl|]. rewrite Hf.
  unfold outcome. simpl. simpl in Hfresh.
  rewrite outcome_in_app, Hfresh, Nat.eqb_refl. reflexivity.
Qed.

(** C9, as the code has it.  When [processNextRequest] dequeues a request
    and [pythonProcess] is null, the optional chaining skips the write:
    nothing is written and nothing is thrown, so no promise is rejected.
    The request becomes the pending call, with its deadline timer armed,
    and is rejected by that timer, with the time-out error. *)
Theorem drain_without_child_waits_for_deadline (e : QueueEntry)
    (rest : list QueueEntry) (requestStr : JSString) (s : Server) :
  reachable s -> pythonProcess s = None -> processingRequest s = false ->
  requestQueue s = e :: rest ->
  JSON_stringify (request e) = Some requestStr ->
  let s1 := processNextRequest s in
  let d := commandTimeout (command (request e)) in
  stdin_written s1 = stdin_written s /\
  settled s1 = settled s /\
  outcome (caller e) s1 = None /\
  currentRequestHandler s1 =
    Some {| h_caller := caller e; timeoutHandle := next_timer s |} /\
  processingRequest s1 = true /\
  requestQueue s1 = rest /\
  lookup_timer (next_timer s) s1 =
    Some {| t_id := next_timer s; t_delay := d;
            t_task := DeadlineTask (caller e) d (command (request e)) |} /\
  outcome (caller e) (fire (next_timer s) s1)
  = Some (Rejected (CommandTimeout d (command (request e)))).
Proof.
  intros R Hp Hb Hq Hstr s1 d. apply reachable_wf in R.
  assert (E1 : s1 = dispatched e rest s).
  { unfold s1. erewrite processNextRequest_dispatch; eauto.
    unfold stdin_write. simpl. rewrite Hp. reflexivity. }
  assert (W1 : wf s1) by (apply wf_processNextRequest; assumption).
  assert (Hd : timeoutDuration_of e = d).
  { pose proof (wf_queue R) as F. rewrite Hq in F.
    inversion F as [|? ? (_ & _ & Ht) _]; subst.
    unfold timeoutDuration_of. rewrite Ht, commandTimeout_nonzero.
    reflexivity. }
  clearbody s1 d.
  assert (Hh1 : currentRequestHandler s1 =
                Some {| h_caller := caller e; timeoutHandle := next_timer s |})
    by (rewrite E1; reflexivity).
  assert (Hl1 : lookup_timer (next_timer s) s1 =
                Some {| t_id := next_timer s; t_delay := d;
                        t_task := DeadlineTask (caller e) d
                                    (command (request e)) |}).
  { rewrite E1, <- Hd. apply dispatched_timer. assumption. }
  pose proof (wf_handler W1) as Wh. unfold handler_ok in Wh.
  rewrite Hh1 in Wh. destruct Wh as (_ & Hfresh & _).
  apply outcome_in_None in Hfresh. simpl in Hfresh.
  destruct (pending_deadline W1 Hh1) as (d' & cmd' & Hl & _ & Hf).
  simpl in Hl, Hf. rewrite Hl1 in Hl. injection Hl as _ Ed Ec.
  subst d' cmd'.
  split; [subst s1; reflexivity|]. split; [subst s1; reflexivity|].
  split; [exact Hfresh|]. split; [exact Hh1|].
  split; [subst s1; reflexivity|]. split; [subst s1; reflexivity|].
  split; [exact Hl1|].
  rewrite Hf. unfold outcome. simpl.
  rewrite outcome_in_app, Hfresh, Nat.eqb_refl. reflexivity.
Qed.

(** ** Chunks *)

Lemma set_responseBuffer_id (s : Server) :
  set_responseBuffer (responseBuffer s) s = s.
Proof. destruct s. reflexivity. Qed.

(** A chunk after which the buffer does not parse stays in the buffer,
    decoded, and nothing else changes. *)
Lemma data_retained (data : Buffer) (h : RequestHandler) (s : Server) :
  currentRequestHandler s = Some h ->
  JSON_parse (responseBuffer s ++ toString data) = None ->
  handlePythonResponse data s
  = set_responseBuffer (responseBuffer s ++ toString data) s.
Proof.
  intros Hh Hp. unfold handlePythonResponse, tryParseResponse. simpl.
  rewrite Hh, Hp. reflexivity.
Qed.

Lemma data_retained_run (chunks : list Buffer) (h : RequestHandler) :
  forall s : Server,
  currentRequestHandler s = Some h ->
  (forall k, 0 < k <= List.length chunks ->
     JSON_parse
       (responseBuffer s ++ List.concat (map toString (firstn k chunks)))
     = None) ->
  run s (map Data chunks)
  = set_responseBuffer
      (responseBuffer s ++ List.concat (map toString chunks)) s.
Proof.
  induction chunks as [|c cs IH]; intros s Hh Hp; simpl.
  - rewrite app_nil_r. symmetry. apply set_responseBuffer_id.
  - rewrite (@data_retained c h s Hh).
    + rewrite IH; simpl; [rewrite app_assoc; reflexivity|assumption|].
      intros k Hk. rewrite <- app_assoc.
      apply (Hp (S k)). simpl. lia.
    + specialize (Hp 1). simpl in Hp. rewrite app_nil_r in Hp.
      apply Hp. lia.
Qed.

Lemma concat_skipn_nonempty (pieces : list JSString) (k : nat) :
  Forall (fun c => c <> []) pieces -> k < List.length pieces ->
  List.concat (skipn k pieces) <> [].
Proof.
  revert k. induction pieces as [|c cs IH]; simpl; intros k F Hk; [lia|].
  inversion F; subst. destruct k as [|k]; simpl.
  - destruct c; [congruence|discriminate].
  - apply IH; [assumption|lia].
Qed.

(** What the broker assembles is the chunks decoded one by one.  While no
    prefix of that text parses, the promise stays pending and the text
    received so far is in the buffer; when the whole of it parses, the
    promise is resolved with the value. *)
Lemma decoded_chunks_assembled (chunks : list Buffer) (h : RequestHandler)
    (result : Value) (s : Server) :
  wf s -> currentRequestHandler s = Some h -> responseBuffer s = [] ->
  chunks <> [] -> Forall (fun c => toString c <> []) chunks ->
  (forall pre,
      proper_prefix pre (List.concat (map toString chunks)) ->
      JSON_parse pre = None) ->
  JSON_parse (List.concat (map toString chunks)) = Some result ->
  isNull result = false ->
  (forall k, k < List.length chunks ->
     run s (map Data (firstn k chunks))
     = set_responseBuffer (List.concat (map toString (firstn k chunks))) s) /\
  let s' := run s (map Data chunks) in
  outcome (h_caller h) s' = Some (Resolved result) /\
  settled s' = settled s ++ [(h_caller h, Resolved result)] /\
  responseBuffer s' = [] /\
  currentRequestHandler s' = None /\
  processingRequest s' = false /\
  lookup_timer (timeoutHandle h) s' = None.
Proof.
  intros R Hh Hb Hne Hce Hpre Hparse Hnull.
  pose proof (wf_handler R) as Wh. unfold handler_ok in Wh.
  rewrite Hh in Wh. destruct Wh as (_ & Hfresh & _).
  apply outcome_in_None in Hfresh.
  assert (Hstrict : forall k, k < List.length chunks ->
            run s (map Data (firstn k chunks))
            = set_responseBuffer
                (List.concat (map toString (firstn k chunks))) s).
  { intros k Hk.
    rewrite (@data_retained_run (firstn k chunks) h s Hh).
    - rewrite Hb. reflexivity.
    - intros j Hj. rewrite Hb. simpl.
      rewrite length_firstn in Hj. rewrite firstn_firstn.
      replace (Nat.min j k) with j by lia.
      apply Hpre. exists (List.concat (map toString (skipn j chunks))). split.
      + rewrite <- skipn_map. apply concat_skipn_nonempty.
        * apply Forall_map. assumption.
        * rewrite length_map. lia.
      + rewrite <- concat_app, <- map_app, firstn_skipn. reflexivity. }
  split; [exact Hstrict|].
  destruct (exists_last Hne) as (init & lst & ->).
  assert (Hinit : run s (map Data init)
                  = set_responseBuffer (List.concat (map toString init)) s).
  { specialize (Hstrict (List.length init)).
    rewrite firstn_app, firstn_all, Nat.sub_diag in Hstrict.
    simpl in Hstrict. rewrite app_nil_r in Hstrict.
    apply Hstrict. rewrite length_app. simpl. lia. }
  cbv zeta. rewrite map_app. unfold run in *. rewrite fold_left_app.
  rewrite Hinit. simpl.
  rewrite map_app, concat_app in Hparse. simpl in Hparse.
  rewrite app_nil_r in Hparse.
  unfold handlePythonResponse, tryParseResponse. simpl.
  rewrite Hh, Hparse, Hnull.
  rewrite settle_fresh by (apply outcome_in_None; exact Hfresh).
  unfold outcome. simpl.
  rewrite outcome_in_app, Hfresh, Nat.eqb_refl.
  repeat split; try reflexivity.
  unfold lookup_timer. simpl.
  destruct (find (fun x => t_id x =? timeoutHandle h) _) as [x|] eqn:E;
    [|reflexivity].
  apply find_id_Some in E. destruct E as [Hin E].
  apply in_app_iff in Hin. destruct Hin as [Hin|[<-|[]]].
  + apply filter_In in Hin. rewrite E, Nat.eqb_refl in Hin.
    destruct Hin; discriminate.
  + simpl in E. destruct (pending_deadline R Hh) as (d & cmd & Hl & _).
    apply lookup_timer_In_lt in Hl; [lia|assumption].
Qed.

(** *** Decoding chunk by chunk *)

Lemma utf8_decode_app (a b : Buffer) :
  forall st,
  utf8_state st a = None ->
  utf8_decode st (a ++ b) = utf8_decode st a ++ toString b.
Proof.
  induction a as [|x a IH]; simpl; intros st H.
  - subst st. reflexivity.
  - destruct (utf8_feed st (Byte.to_N x)) as [out st'] eqn:E.
    simpl in H. rewrite IH by assumption. apply app_assoc.
Qed.

(** A Buffer that ends between two characters can be decoded apart from
    what follows it. *)
Lemma toString_app (a b : Buffer) :
  whole a = true -> toString (a ++ b) = toString a ++ toString b.
Proof.
  unfold whole. intros H. apply utf8_decode_app.
  destruct (utf8_state None a); [discriminate|reflexivity].
Qed.

Lemma toString_concat (chunks : list Buffer) (lst : Buffer) :
  Forall (fun c => whole c = true) chunks ->
  toString (List.concat (chunks ++ [lst]))
  = List.concat (map toString (chunks ++ [lst])).
Proof.
  induction 1 as [|c cs Hc Hcs IH]; simpl.
  - rewrite !app_nil_r. reflexivity.
  - rewrite toString_app by assumption. rewrite IH. reflexivity.
Qed.

Lemma utf8_lead_pending (b : N) :
  fst (utf8_lead b) = [] -> snd (utf8_lead b) <> None.
Proof.
  unfold utf8_lead.
  repeat match goal with
         | |- context [if ?c then _ else _] => destruct c
         end; simpl; intros H; discriminate.
Qed.

Lemma codeUnits_nonempty (cp : N) : codeUnits cp <> [].
Proof. unfold codeUnits. destruct (cp <? 0x10000)%N; discriminate. Qed.

Lemma utf8_decode_pending (data : Buffer) :
  forall p, utf8_decode (Some p) data <> [].
Proof.
  induction data as [|x data IH]; simpl; intros p; [discriminate|].
  destruct ((u_lower p <=? Byte.to_N x) && (Byte.to_N x <=? u_upper p))%N.
  - destruct (u_needed p) as [|[|n]]; simpl;
      try (intros H; apply app_eq_nil in H; destruct H as [H _];
           exact (codeUnits_nonempty _ H)).
    apply IH.
  - destruct (utf8_lead (Byte.to_N x)). discriminate.
Qed.

(** Every Buffer but the empty one decodes to some text. *)
Lemma toString_nonempty (data : Buffer) : data <> [] -> toString data <> [].
Proof.
  destruct data as [|x data]; [congruence|]. intros _.
  unfold toString. simpl.
  pose proof (utf8_lead_pending (Byte.to_N x)) as H.
  destruct (utf8_lead (Byte.to_N x)) as [out st]. simpl in H.
  destruct out; [|discriminate].
  destruct st as [p|]; [|exfalso; apply H; reflexivity].
  simpl. apply utf8_decode_pending.
Qed.

(** X23.  Whatever the chunks of a response are, what the broker assembles
    and parses is the text of the chunks decoded one by one: while no
    shorter prefix of that text parses the promise stays pending, with
    the text received so far in the buffer, and when all of it parses to
    a value that is not null the promise is resolved with that value. *)
Theorem response_is_chunks_decoded_apart (chunks : list Buffer)
    (h : RequestHandler) (result : Value) (s : Server) :
  reachable s -> currentRequestHandler s = Some h -> responseBuffer s = [] ->
  chunks <> [] -> Forall (fun c => c <> []) chunks ->
  (forall pre,
      proper_prefix pre (List.concat (map toString chunks)) ->
      JSON_parse pre = None) ->
  JSON_parse (List.concat (map toString chunks)) = Some result ->
  isNull result = false ->
  (forall k, k < List.length chunks ->
     run s (map Data (firstn k chunks))
     = set_responseBuffer (List.concat (map toString (firstn k chunks))) s) /\
  outcome (h_caller h) (run s (map Data chunks)) = Some (Resolved result) /\
  responseBuffer (run s (map Data chunks)) = [] /\
  currentRequestHandler (run s (map Data chunks)) = None.
Proof.
  intros R Hh Hb Hne Hce Hpre Hparse Hnull. apply reachable_wf in R.
  destruct (@decoded_chunks_assembled chunks h result s R Hh Hb Hne)
    as (Hstrict & Hres & _ & Hbuf & Hcur & _); try assumption.
  { rewrite Forall_forall in Hce |- *. intros c Hc.
    apply toString_nonempty, Hce, Hc. }
  auto.
Qed.

(** X24.  A response arrives as chunks, none of them empty and none but
    perhaps the last ending inside a multi-byte character, while its call
    is pending; decoded, no shorter prefix of the response parses.  After
    every strict prefix of the chunks the promise is still pending and
    the buffer holds exactly the text received so far; after the last
    chunk the buffer parses, and the promise is resolved with the parsed
    value, the buffer is emptied, the pending call is cleared and its
    timer disarmed.  (The value is not null: the child answers with an
    object; on null, reading result.success throws inside the try block.) *)
Theorem chunked_response_resolves (chunks : list Buffer)
    (h : RequestHandler) (result : Value) (s : Server) :
  reachable s -> currentRequestHandler s = Some h -> responseBuffer s = [] ->
  chunks <> [] -> Forall (fun c => c <> []) chunks ->
  Forall (fun c => whole c = true) (removelast chunks) ->
  (forall pre,
      proper_prefix pre (toString (List.concat chunks)) ->
      JSON_parse pre = None) ->
  JSON_parse (toString (List.concat chunks)) = Some result ->
  isNull result = false ->
  (forall k, k < List.length chunks ->
     let s' := run s (map Data (firstn k chunks)) in
     s' = set_responseBuffer (toString (List.concat (firstn k chunks))) s /\
     responseBuffer s' = toString (List.concat (firstn k chunks)) /\
     outcome (h_caller h) s' = None /\
     settled s' = settled s /\
     currentRequestHandler s' = Some h) /\
  let s' := run s (map Data chunks) in
  outcome (h_caller h) s' = Some (Resolved result) /\
  settled s' = settled s ++ [(h_caller h, Resolved result)] /\
  responseBuffer s' = [] /\
  currentRequestHandler s' = None /\
  processingRequest s' = false /\
  lookup_timer (timeoutHandle h) s' = None.
Proof.
  intros R Hh Hb Hne Hce Hw Hpre Hparse Hnull. apply reachable_wf in R.
  pose proof (wf_handler R) as Wh. unfold handler_ok in Wh.
  rewrite Hh in Wh. destruct Wh as (_ & Hfresh & _).
  apply outcome_in_None in Hfresh.
  assert (Hdoc : toString (List.concat chunks)
                 = List.concat (map toString chunks)).
  { destruct (exists_last Hne) as (init & lst & ->).
    rewrite removelast_last in Hw. apply toString_concat. assumption. }
  assert (Hpart : forall k, k < List.length chunks ->
            toString (List.concat (firstn k chunks))
            = List.concat (map toString (firstn k chunks))).
  { intros k Hk. destruct (exists_last Hne) as (init & lst & ->).
    rewrite removelast_last in Hw. rewrite length_app in Hk. simpl in Hk.
    rewrite firstn_app. replace (k - List.length init) with 0 by lia.
    simpl. rewrite app_nil_r.
    destruct k as [|k]; [reflexivity|].
    assert (Hk' : k < List.length init) by lia.
    rewrite <- (firstn_skipn k init) in Hw |- *.
    assert (Hlen : List.length (firstn k init) = k)
      by (rewrite length_firstn; lia).
    destruct (skipn k init) as [|c rest] eqn:Hs.
    { apply (f_equal (@List.length _)) in Hs. rewrite length_skipn in Hs.
      simpl in Hs. lia. }
    replace (S k) with (List.length (firstn k init) + 1) by lia.
    rewrite firstn_app_2. simpl.
    apply toString_concat. apply Forall_app in Hw. tauto. }
  rewrite Hdoc in Hpre, Hparse.
  destruct (@decoded_chunks_assembled chunks h result s R Hh Hb Hne)
    as [Hstrict Hlast]; try assumption.
  { rewrite Forall_forall in Hce |- *. intros c Hc.
    apply toString_nonempty, Hce, Hc. }
  split; [|exact Hlast].
  intros k Hk. cbv zeta. rewrite (Hstrict k Hk), (Hpart k Hk).
  repeat split; try reflexivity; assumption.
Qed.

(** C1.  The child stays alive and its stdin takes every line.  Then,
    whatever the order in which calls, chunks of output and timers are
    run: the promises are numbered in the order of the calls; they are
    settled in exactly that order, the pending call being the oldest
    promise not settled and the queued ones following it in order; at
    most one call is pending; every line written, except the pending
    call's, belongs to a promise that is settled; while a call is pending
    no handler writes to the child; and when every request can be
    serialised and no deadline expires, every promise settled is resolved.
    And when N calls are made and the child answers each request, one
    after the other, the N promises are resolved, with the values of the
    answers, in the order of the calls. *)
Theorem submission_order_preserved (p : ChildProcess) :
  (forall line, stdin_write_throws line = false) ->
  (forall tr, forallb alive_event tr = true ->
     let s : Server := run (started p) tr in
     next_call s = List.length (filter is_submit tr) /\
     (forall command params,
         fst (callKicadScript command params s) = next_call s) /\
     map fst (settled s) ++ in_flight s ++ map caller (requestQueue s)
     = seq 0 (next_call s) /\
     List.length (in_flight s) <= 1 /\
     List.length (stdin_written s)
     <= List.length (settled s) + List.length (in_flight s) /\
     (forall e, in_flight s <> [] ->
                stdin_written (step s e) = stdin_written s) /\
     ((forall r, JSON_stringify r <> None) ->
      responsive (started p) tr = true ->
      forallb is_resolved (settled s) = true)) /\
  (forall reqs docs vs,
     (forall r, JSON_stringify r <> None) ->
     reqs <> [] -> List.length docs = List.length reqs ->
     Forall2 parses_to docs vs ->
     let s : Server :=
       fold_left answer docs (run (started p) (map submit_of reqs)) in
     settled s = combine (seq 0 (List.length reqs)) (map (@Resolved _) vs) /\
     currentRequestHandler s = None /\ requestQueue s = []).
Proof.
  intros Hw. split.
  - intros tr Ha s.
    assert (W : wf s) by apply wf_run, wf_started.
    assert (S : serial s).
    { apply serial_run; auto using wf_started, serial_started. }
    split; [apply (next_call_run tr (started p))|].
    split; [intros; unfold callKicadScript; simpl;
            destruct (pythonProcess s); reflexivity|].
    split; [apply (serial_order S)|].
    split; [unfold in_flight; destruct (currentRequestHandler s); simpl; lia|].
    split; [apply (serial_written S)|]. split.
    + intros e He. unfold in_flight in He.
      destruct (currentRequestHandler s) as [h|] eqn:Hh; [|congruence].
      eapply no_write_while_pending; eassumption.
    + intros Ht Hr.
      apply resolved_run; auto using wf_started, serial_started.
  - intros reqs docs vs Ht Hne Hlen Hdocs.
    apply burst_resolved_in_order; assumption.
Qed.

End Facts.

(** * The claims on concrete runs *)

Section Runs.

Import ToyJson.

Lemma runtime_never_throws (line : JSString) :
  @stdin_write_throws _ _ runtime line = false.
Proof. reflexivity. Defined.

Lemma runtime_stringifies (r : Request Json) :
  @JSON_stringify _ _ runtime r <> None.
Proof. discriminate. Defined.

Lemma reachable_run (tr : list (@Event Json)) :
  reachable (RT := runtime) (run (RT := runtime) (started child) tr).
Proof. exists child, tr. split; reflexivity. Defined.

(** C1 on a run: two calls, an answer in two chunks, a turn, an answer, a
    turn; and on a burst of two calls answered one after the other. *)
Lemma submission_order_preserved_witness :
  (forall line, @stdin_write_throws _ _ runtime line = false) /\
  forallb (@alive_event Json) answered_run = true /\
  responsive (RT := runtime) (started child) answered_run = true /\
  map fst (settled answered) ++ in_flight answered ++
    map caller (requestQueue answered)
  = seq 0 (next_call answered) /\
  map fst (settled answered) = [0; 1] /\
  forallb is_resolved (settled answered) = true /\
  settled
    (fold_left (answer (RT := runtime)) [success_doc; success_doc]
       (run (RT := runtime) (started child)
          (map (@submit_of Json) two_requests)))
  = [(0, Resolved success); (1, Resolved success)].
Proof.
  destruct (@submission_order_preserved _ _ runtime child
              runtime_never_throws) as [Hsafe Hlive].
  destruct (Hsafe answered_run eq_refl) as (_ & _ & Ho & _ & _ & _ & Hr).
  split; [exact runtime_never_throws|].
  split; [reflexivity|]. split; [reflexivity|].
  split; [exact Ho|]. split; [reflexivity|].
  split; [exact (Hr runtime_stringifies eq_refl)|].
  refine (proj1 (Hlive two_requests [success_doc; success_doc]
                   [success; success]
                   runtime_stringifies _ eq_refl _)).
  - discriminate.
  - repeat constructor.
Defined.

(** C2 on a run: a call after [stop]. *)
Lemma submit_without_child_rejects_witness :
  reachable (RT := runtime) stopped /\
  pythonProcess stopped = None /\
  let s' := snd (callKicadScript (RT := runtime) "get_board_info" no_params
                   stopped) in
  outcome 0 s' = Some (Rejected ProcessNotRunning) /\
  requestQueue s' = [] /\ stdin_written s' = [].
Proof.
  split; [exact (reachable_run [Stop])|]. split; [reflexivity|].
  destruct (@submit_without_child_rejects _ _ runtime "get_board_info"
              no_params stopped (reachable_run [Stop]) eq_refl)
    as (_ & _ & H1 & _ & H2 & H3 & _).
  exact (conj H1 (conj H2 H3)).
Defined.

(** C3 on a run: run_drc, then get_board_info, each on an idle object. *)
Lemma timeout_policy_witness :
  lookup_timer 0
    (snd (callKicadScript (RT := runtime) "run_drc" no_params
            (started child)))
  = Some {| t_id := 0; t_delay := 600000;
            t_task := DeadlineTask 0 600000 "run_drc" |} /\
  lookup_timer 2
    (snd (callKicadScript (RT := runtime) "get_board_info" no_params
            idle_again))
  = Some {| t_id := 2; t_delay := 30000;
            t_task := DeadlineTask 1 30000 "get_board_info" |}.
Proof.
  destruct (@timeout_policy _ _ runtime) as (_ & _ & _ & _ & Harm & _).
  split.
  - refine (proj2 (Harm (started child) "run_drc"%string no_params _
                     (reachable_run []) _ eq_refl eq_refl eq_refl eq_refl)).
    discriminate.
  - refine (proj2 (Harm idle_again "get_board_info"%string no_params _
                     (reachable_run _) _ eq_refl eq_refl eq_refl eq_refl)).
    discriminate.
Defined.

(** X24 on an input: the response arrives in three chunks. *)
Lemma no_prefix_of_success_parses (pre : JSString) :
  proper_prefix pre (toString (List.concat success_chunks)) ->
  @JSON_parse _ _ runtime pre = None.
Proof.
  intros (suffix & Hne & E).
  let doc := eval vm_compute in (toString (List.concat success_chunks)) in
  change (toString (List.concat success_chunks)) with doc in E.
  repeat (destruct pre as [|? pre];
          [reflexivity
          |first [discriminate E | injection E as <- E]]).
  destruct pre; [|discriminate E].
  simpl in E. congruence.
Defined.

Lemma chunked_response_resolves_witness :
  reachable (RT := runtime) one_pending /\
  currentRequestHandler one_pending
  = Some {| h_caller := 0; timeoutHandle := 0 |} /\
  responseBuffer one_pending = [] /\
  Forall (fun c => whole c = true) (removelast success_chunks) /\
  @JSON_parse _ _ runtime (toString (List.concat success_chunks))
  = Some success /\
  outcome 0 (run (RT := runtime) one_pending
               (map (@Data Json) (firstn 1 success_chunks))) = None /\
  outcome 0 (run (RT := runtime) one_pending
               (map (@Data Json) (firstn 2 success_chunks))) = None /\
  outcome 0 (run (RT := runtime) one_pending
               (map (@Data Json) success_chunks))
  = Some (Resolved success).
Proof.
  assert (Hne : Forall (fun c : Buffer => c <> []) success_chunks)
    by (repeat constructor; discriminate).
  assert (Hnil : success_chunks <> []) by discriminate.
  assert (Hw : Forall (fun c => whole c = true) (removelast success_chunks))
    by (repeat constructor).
  destruct (@chunked_response_resolves _ _ runtime success_chunks
              {| h_caller := 0; timeoutHandle := 0 |} success one_pending
              (reachable_run _) eq_refl eq_refl Hnil Hne Hw
              no_prefix_of_success_parses eq_refl eq_refl)
    as (Hstrict & Hlast & _).
  split; [exact (reachable_run _)|].
  do 2 (split; [reflexivity|]). split; [exact Hw|]. split; [reflexivity|].
  assert (H12 : 1 < 3) by (apply le_n_S, le_n_S, le_0_n).
  split; [exact (proj1 (proj2 (proj2 (Hstrict 1 H12))))|].
  split; [exact (proj1 (proj2 (proj2 (Hstrict 2 (le_n _)))))|].
  exact Hlast.
Defined.

(** C4 fails on a run: the response [{"name":"caf\u00E9"}], of which no
    proper prefix parses, arrives in three chunks, and the first chunk
    ends between the two bytes of the last letter of the name.  Each
    chunk is decoded by itself, so each half of the letter becomes
    U+FFFD.  The promise stays pending after the first and the second
    chunk, and after the third it is resolved: with a name that ends in
    two U+FFFD, not with the value of the response. *)
Lemma split_character_garbles_response :
  List.concat cafe_chunks = cafe_doc /\
  @JSON_parse _ _ runtime (toString cafe_doc) = Some cafe /\
  (forall pre,
      proper_prefix pre (toString cafe_doc) ->
      @JSON_parse _ _ runtime pre = None) /\
  currentRequestHandler one_pending
  = Some {| h_caller := 0; timeoutHandle := 0 |} /\
  responseBuffer one_pending = [] /\
  outcome 0 (run (RT := runtime) one_pending
               (map (@Data Json) (firstn 1 cafe_chunks))) = None /\
  outcome 0 (run (RT := runtime) one_pending
               (map (@Data Json) (firstn 2 cafe_chunks))) = None /\
  outcome 0 (run (RT := runtime) one_pending (map (@Data Json) cafe_chunks))
  = Some (Resolved cafe_garbled) /\
  cafe_garbled <> cafe.
Proof.
  split; [vm_compute; reflexivity|]. split; [vm_compute; reflexivity|].
  split.
  - intros pre (suffix & Hne & E).
    let doc := eval vm_compute in (toString cafe_doc) in
    change (toString cafe_doc) with doc in E.
    repeat (destruct pre as [|? pre];
            [reflexivity
            |first [discriminate E | injection E as <- E]]).
    destruct pre; [|discriminate E].
    simpl in E. congruence.
  - vm_compute. repeat split; try reflexivity. discriminate.
Qed.

(** C5 on a run: the deadline of run_drc expires while get_board_info is
    queued. *)
Lemma deadline_fire_rejects_and_resumes_witness :
  reachable (RT := runtime) two_calls /\
  currentRequestHandler two_calls
  = Some {| h_caller := 0; timeoutHandle := 0 |} /\
  (exists d cmd,
      outcome 0 (fire (RT := runtime) 0 two_calls)
      = Some (Rejected (CommandTimeout d cmd))) /\
  responseBuffer (fire (RT := runtime) 0 two_calls) = [] /\
  currentRequestHandler (fire (RT := runtime) 0 two_calls) = None /\
  processingRequest (fire (RT := runtime) 0 two_calls) = false /\
  currentRequestHandler
    (fire (RT := runtime) 1 (fire (RT := runtime) 0 two_calls))
  = Some {| h_caller := 1; timeoutHandle := 2 |}.
Proof.
  destruct (@deadline_fire_rejects_and_resumes _ _ runtime
              {| h_caller := 0; timeoutHandle := 0 |} two_calls
              (reachable_run _) eq_refl)
    as (d & cmd & _ & _ & _ & Hrej & _ & Hb & Hh & Hp & _ & _ & _ & _ & Hnext).
  split; [exact (reachable_run _)|]. split; [reflexivity|].
  split; [exists d, cmd; exact Hrej|].
  do 3 (split; [assumption|]).
  refine (proj1 (proj2 (Hnext _ _ _ child eq_refl eq_refl eq_refl eq_refl
                          eq_refl))).
Defined.

(** C7, as stated, fails on a run: the child exits while a call is
    pending, and the call is rejected when its deadline expires. *)
Lemma exit_then_deadline_rejects :
  currentRequestHandler one_pending
  = Some {| h_caller := 0; timeoutHandle := 0 |} /\
  outcome 0 (step (RT := runtime) one_pending Exit) = None /\
  ~ (forall tr,
       outcome 0 (run (RT := runtime) (step (RT := runtime) one_pending Exit)
                    tr) = None).
Proof.
  split; [reflexivity|]. split; [reflexivity|].
  intros H. generalize (H [Fire 0]). vm_compute. discriminate.
Qed.

Lemma exit_leaves_call_to_its_deadline_witness :
  reachable (RT := runtime) one_pending /\
  currentRequestHandler one_pending
  = Some {| h_caller := 0; timeoutHandle := 0 |} /\
  settled (step (RT := runtime) one_pending Exit) = settled one_pending /\
  exists d cmd,
    outcome 0 (fire (RT := runtime) 0 (step (RT := runtime) one_pending Exit))
    = Some (Rejected (CommandTimeout d cmd)).
Proof.
  destruct (@exit_leaves_call_to_its_deadline _ _ runtime
              {| h_caller := 0; timeoutHandle := 0 |} one_pending
              (reachable_run _) eq_refl)
    as (_ & Hs & _ & _ & _ & _ & d & cmd & _ & Hrej).
  split; [exact (reachable_run _)|]. split; [reflexivity|].
  split; [exact Hs|]. exists d, cmd. exact Hrej.
Defined.

(** C9, as stated, fails on a run: a request is dequeued after [stop];
    nothing is thrown and its promise is not rejected. *)
Lemma drain_without_child_raises_nothing :
  pythonProcess queued_without_child = None /\
  map caller (requestQueue queued_without_child) = [1] /\
  processingRequest queued_without_child = false /\
  stdin_written (processNextRequest (RT := runtime) queued_without_child)
  = stdin_written queued_without_child /\
  ~ (exists error,
       outcome 1 (processNextRequest (RT := runtime) queued_without_child)
       = Some (Rejected error)).
Proof.
  do 4 (split; [vm_compute; reflexivity|]).
  intros (error & H). revert H. vm_compute. discriminate.
Qed.

Lemma drain_without_child_waits_for_deadline_witness :
  reachable (RT := runtime) queued_without_child /\
  pythonProcess queued_without_child = None /\
  processingRequest queued_without_child = false /\
  outcome 1 (processNextRequest (RT := runtime) queued_without_child) = None /\
  outcome 1
    (fire (RT := runtime) 2
       (processNextRequest (RT := runtime) queued_without_child))
  = Some (Rejected (CommandTimeout 30000 "get_board_info")).
Proof.
  destruct (@drain_without_child_waits_for_deadline _ _ runtime _ _ _
              queued_without_child
              (reachable_run _) eq_refl eq_refl eq_refl eq_refl)
    as (_ & _ & Hpending & _ & _ & _ & _ & Hrej).
  split; [exact (reachable_run _)|]. do 2 (split; [reflexivity|]).
  split; [exact Hpending|exact Hrej].
Defined.

(** C10 on a run: output arrives on an idle object. *)
Lemma stray_output_settles_nothing_witness :
  currentRequestHandler (@started Json Json child) = None /\
  responseBuffer
    (handlePythonResponse (RT := runtime) success_doc (started child)) = [] /\
  settled
    (handlePythonResponse (RT := runtime) success_doc (started child)) = [] /\
  responseBuffer
    (handlePythonResponse (RT := runtime) (utf8 newline) (started child))
  = newline.
Proof.
  destruct (@stray_output_settles_nothing _ _ runtime success_doc
              (started child) eq_refl) as (H1 & H2 & _).
  destruct (@stray_output_settles_nothing _ _ runtime (utf8 newline)
              (started child) eq_refl) as (H3 & _).
  split; [reflexivity|].
  split; [rewrite H1; reflexivity|].
  split; [exact H2|].
  rewrite H3. reflexivity.
Defined.

(** C6 fails on a run: stdin.write throws for export_pdf.  The promise is
    rejected and the pending call cleared, but the deadline timer armed a
    few lines above stays armed.  When it expires, ten minutes later,
    get_board_info is pending: the callback empties the pending-call slot
    of that call without settling it, and the answer that arrives next is
    thrown away. *)
Lemma write_error_leaves_deadline_armed :
  outcome 0 after_write_error = Some (Rejected (Raised WriteError)) /\
  currentRequestHandler after_write_error = None /\
  processingRequest after_write_error = false /\
  lookup_timer 0 after_write_error
  = Some {| t_id := 0; t_delay := 600000;
            t_task := DeadlineTask 0 600000 "export_pdf" |} /\
  currentRequestHandler next_call_pending
  = Some {| h_caller := 1; timeoutHandle := 2 |} /\
  currentRequestHandler (fire (RT := faulty_runtime) 0 next_call_pending)
  = None /\
  outcome 1 (fire (RT := faulty_runtime) 0 next_call_pending) = None /\
  outcome 1
    (run (RT := faulty_runtime) next_call_pending [Fire 0; Data success_doc])
  = None /\
  responseBuffer
    (run (RT := faulty_runtime) next_call_pending [Fire 0; Data success_doc])
  = [].
Proof. vm_compute. repeat split; reflexivity. Qed.

End Runs.

(** * More facts about the broker *)

Ltac by_cases :=
  repeat first
    [ progress simpl
    | match goal with
      | |- context [match ?scrutinee with _ => _ end] =>
          lazymatch scrutinee with
          | context [match _ with _ => _ end] => fail
          | _ => destruct scrutinee eqn:?
          end
      end ].

Section MoreBroker.

Context {Params Value : Type} {RT : Runtime Params Value}.

Abbreviation Broker := (@KiCADMcpServer Params Value).

(** ** The buffer of an idle object *)

Lemma blank_processNextRequest (s : Broker) :
  (processingRequest s = false -> currentRequestHandler s = None) ->
  blank_when_idle s -> blank_when_idle (processNextRequest s).
Proof.
  intros Hidle B. unfold processNextRequest.
  destruct (requestQueue s) as [|e rest]; [assumption|].
  destruct (processingRequest s) eqn:Hp; [assumption|].
  specialize (Hidle eq_refl). specialize (B Hidle).
  destruct (JSON_stringify (request e)) as [str|].
  - unfold stdin_write, setTimeout. simpl.
    destruct (pythonProcess s) as [p|]; [|intros H; discriminate H].
    destruct (stdin p); [|intros H; discriminate H].
    destruct (stdin_write_throws _); [|intros H; discriminate H].
    unfold processNextRequest_catch, settle, blank_when_idle.
    by_cases; reflexivity.
  - unfold processNextRequest_catch, settle, blank_when_idle.
    by_cases; intros _; exact B.
Qed.

Lemma blank_step (s : Broker) (e : Event) :
  wf s -> blank_when_idle s -> blank_when_idle (step s e).
Proof.
  intros W B.
  assert (Hidle : processingRequest s = false ->
                  currentRequestHandler s = None).
  { intros Hp. pose proof (wf_handler W) as Wh. unfold handler_ok in Wh.
    destruct (currentRequestHandler s); [destruct Wh; congruence|reflexivity]. }
  destruct e as [c a|chunk|t| |]; simpl.
  - unfold callKicadScript. simpl. destruct (pythonProcess s) eqn:Hpy; simpl.
    + destruct (processingRequest s) eqn:Hp; [exact B|].
      apply blank_processNextRequest; simpl;
        [rewrite Hp; intros _; auto|exact B].
    + unfold settle, blank_when_idle. by_cases; exact B.
  - unfold handlePythonResponse, tryParseResponse, blank_when_idle. simpl.
    destruct (currentRequestHandler s) as [h|] eqn:Hh.
    + destruct (JSON_parse _) as [v|]; [|simpl; rewrite Hh; discriminate].
      destruct (isNull v); [simpl; rewrite Hh; discriminate|].
      unfold settle. by_cases; reflexivity.
    + rewrite truthy_trim.
      destruct (forallb isWhiteSpace (responseBuffer s ++ toString chunk))
        eqn:E;
        simpl; intros _; [exact E|reflexivity].
  - unfold fire. destruct (lookup_timer t s) as [x|]; [|exact B].
    unfold runTask. destruct (t_task x).
    + unfold settle, blank_when_idle. by_cases; reflexivity.
    + apply blank_processNextRequest; [exact Hidle|exact B].
  - exact B.
  - unfold stop, blank_when_idle. by_cases; exact B.
Qed.

Lemma blank_run (tr : list Event) (s : Broker) :
  wf s -> blank_when_idle s -> blank_when_idle (run s tr).
Proof.
  revert s. induction tr as [|e tr IH]; simpl; intros s W B; [assumption|].
  apply IH; [apply wf_step|apply blank_step]; assumption.
Qed.

(** X1.  The busy flag is set exactly while a call is pending. *)
Theorem busy_iff_pending (s : Broker) :
  reachable s ->
  (processingRequest s = true <-> currentRequestHandler s <> None).
Proof.
  intros R. apply reachable_wf in R.
  pose proof (wf_handler R) as Wh. unfold handler_ok in Wh.
  destruct (currentRequestHandler s) as [h|].
  - destruct Wh as [Hp _]. split; [discriminate|auto].
  - rewrite Wh. split; [discriminate|congruence].
Qed.

(** X2.  While no call is pending, the buffer never holds anything but white
    space: output that arrives then is thrown away, not kept for the next
    call. *)
Theorem idle_buffer_is_blank (s : Broker) :
  reachable s -> currentRequestHandler s = None ->
  forallb isWhiteSpace (responseBuffer s) = true.
Proof.
  intros (p & tr & _ & ->).
  apply (@blank_run tr (started p)); [apply wf_started|].
  intros _. reflexivity.
Qed.

(** X3.  While a call is pending no handler writes to the child, whatever the
    event and the runtime: not a new call, not a drain callback, not a
    deadline, not [stop]. *)
Theorem never_writes_while_pending (h : RequestHandler) (e : Event)
    (s : Broker) :
  reachable s -> currentRequestHandler s = Some h ->
  stdin_written (step s e) = stdin_written s.
Proof.
  intros R Hh. apply reachable_wf in R.
  apply (no_write_while_pending e R Hh).
Qed.

(** X4.  A request that JSON.stringify refuses is rejected with the exception,
    when it reaches the head of the queue: nothing is written, no deadline
    timer is armed, the buffer is left alone, the object is idle again and
    a drain callback is armed for the rest of the queue. *)
Theorem unserialisable_request_rejected (e : QueueEntry)
    (rest : list QueueEntry) (s : Broker) :
  reachable s -> processingRequest s = false ->
  requestQueue s = e :: rest -> JSON_stringify (request e) = None ->
  let s1 := processNextRequest s in
  outcome (caller e) s1 = Some (Rejected (Raised StringifyError)) /\
  settled s1 = settled s ++ [(caller e, Rejected (Raised StringifyError))] /\
  stdin_written s1 = stdin_written s /\
  responseBuffer s1 = responseBuffer s /\
  currentRequestHandler s1 = None /\
  processingRequest s1 = false /\
  requestQueue s1 = rest /\
  timers s1 = timers s ++
              [{| t_id := next_timer s; t_delay := 0; t_task := DrainTask |}].
Proof.
  intros R Hp Hq Hs s1. apply reachable_wf in R.
  assert (Hfresh : ~ In (caller e) (map fst (settled s))).
  { pose proof (wf_queue R) as F. rewrite Hq in F.
    inversion F as [|? ? He _]; subst. apply He. }
  unfold s1, processNextRequest. rewrite Hq, Hp, Hs.
  unfold processNextRequest_catch.
  rewrite settle_fresh by (simpl; assumption).
  unfold outcome. simpl. rewrite outcome_in_app.
  apply outcome_in_None in Hfresh. rewrite Hfresh, Nat.eqb_refl.
  repeat split; reflexivity.
Qed.

(** X5.  A response that is the document null does not resolve the call: the
    chunk stays in the buffer and nothing else changes; the call ends when
    its deadline expires, with the time-out error. *)
Theorem null_response_times_out (data : Buffer) (result : Value)
    (h : RequestHandler) (s : Broker) :
  reachable s -> currentRequestHandler s = Some h ->
  JSON_parse (responseBuffer s ++ toString data) = Some result ->
  isNull result = true ->
  let s1 := handlePythonResponse data s in
  s1 = set_responseBuffer (responseBuffer s ++ toString data) s /\
  outcome (h_caller h) s1 = None /\
  currentRequestHandler s1 = Some h /\
  exists d cmd,
    outcome (h_caller h) (fire (timeoutHandle h) s1)
    = Some (Rejected (CommandTimeout d cmd)).
Proof.
  intros R Hh Hparse Hnull s1.
  assert (E : s1 = set_responseBuffer (responseBuffer s ++ toString data) s).
  { unfold s1, handlePythonResponse, tryParseResponse. simpl.
    rewrite Hh, Hparse, Hnull. reflexivity. }
  assert (R1 : reachable s1) by apply (reachable_step (Data data) R).
  clearbody s1. apply reachable_wf in R1.
  assert (Hh1 : currentRequestHandler s1 = Some h) by (subst s1; exact Hh).
  pose proof (wf_handler R1) as Wh. unfold handler_ok in Wh.
  rewrite Hh1 in Wh. destruct Wh as (_ & Hfresh & _).
  apply outcome_in_None in Hfresh.
  destruct (pending_deadline R1 Hh1) as (d & cmd & _ & _ & Hf).
  split; [exact E|]. split; [exact Hfresh|]. split; [exact Hh1|].
  exists d, cmd. rewrite Hf. unfold outcome. simpl.
  rewrite outcome_in_app. unfold outcome in Hfresh.
  rewrite Hfresh, Nat.eqb_refl. reflexivity.
Qed.

(** ** The lines written to the child *)

Lemma wf_queue_timeouts (s : Broker) : wf s -> queue_timeouts_ok s.
Proof.
  intros W. pose proof (wf_queue W) as F. unfold queue_timeouts_ok.
  eapply Forall_impl; [|exact F]. intros e He. apply He.
Qed.

Lemma written_processNextRequest (s : Broker) :
  queue_timeouts_ok s -> written_ok s -> written_ok (processNextRequest s).
Proof.
  unfold queue_timeouts_ok, written_ok. intros Q [F L].
  unfold processNextRequest.
  destruct (requestQueue s) as [|e rest] eqn:Hq;
    [split; [exact F|rewrite Hq; exact L]|].
  destruct (processingRequest s) eqn:Hp;
    [split; [exact F|rewrite Hq; exact L]|].
  pose proof (Forall_inv Q) as He. simpl in He, L.
  destruct (JSON_stringify (request e)) as [str|] eqn:Hs.
  - unfold stdin_write, setTimeout. simpl.
    destruct (pythonProcess s) as [p|]; [|simpl; split; [assumption|lia]].
    destruct (stdin p); [|simpl; split; [assumption|lia]].
    destruct (stdin_write_throws _).
    + unfold processNextRequest_catch, settle. by_cases;
        (split; [assumption|lia]).
    + simpl. split.
      * apply Forall_app. split; [assumption|].
        constructor; [|constructor]. exists (request e), str. auto.
      * rewrite length_app. simpl. lia.
  - unfold processNextRequest_catch, settle. by_cases;
      (split; [assumption|lia]).
Qed.

Lemma written_step (s : Broker) (e : Event) :
  wf s -> written_ok s -> written_ok (step s e).
Proof.
  intros W Wr. destruct e as [c a|chunk|t| |]; simpl.
  - unfold callKicadScript. simpl.
    destruct (pythonProcess s) as [p|] eqn:Hpy; simpl.
    + pose proof (@wf_push _ _
                    {| command := c; params := a;
                       timeout := commandTimeout c |} s W eq_refl) as W2.
      assert (Wr2 : written_ok
                (set_requestQueue
                   (requestQueue s ++
                    [{| request := {| command := c; params := a;
                                      timeout := commandTimeout c |};
                        caller := next_call s |}])
                   (set_next_call (S (next_call s)) s))).
      { destruct Wr as [F L]. split; simpl; [assumption|].
        rewrite length_app. simpl. lia. }
      destruct (processingRequest s); [exact Wr2|].
      apply written_processNextRequest;
        [apply wf_queue_timeouts; exact W2|exact Wr2].
    + destruct Wr as [F L]. unfold settle, written_ok.
      by_cases; (split; [assumption|lia]).
  - destruct Wr as [F L].
    unfold handlePythonResponse, tryParseResponse, settle, written_ok.
    by_cases; (split; [assumption|lia]).
  - unfold fire. destruct (lookup_timer t s) as [x|]; [|exact Wr].
    unfold runTask. destruct (t_task x).
    + destruct Wr as [F L]. unfold settle, written_ok.
      by_cases; (split; [assumption|lia]).
    + apply written_processNextRequest.
      * apply (wf_queue_timeouts W).
      * exact Wr.
  - exact Wr.
  - destruct Wr as [F L]. unfold stop, written_ok.
    by_cases; (split; [assumption|lia]).
Qed.

Lemma written_run (tr : list Event) (s : Broker) :
  wf s -> written_ok s -> written_ok (run s tr).
Proof.
  revert s. induction tr as [|e tr IH]; simpl; intros s W B; [assumption|].
  apply IH; [apply wf_step|apply written_step]; assumption.
Qed.

(** X6.  Everything the broker ever writes to the child is a request line:
    JSON.stringify of a request whose timeout field is the one of its
    command, followed by one newline.  There are never more lines than
    calls that have left the queue. *)
Theorem written_lines_are_requests (s : Broker) :
  reachable s ->
  Forall request_line (stdin_written s) /\
  List.length (stdin_written s) + List.length (requestQueue s)
  <= next_call s.
Proof.
  intros (p & tr & _ & ->).
  apply (@written_run tr (started p)); [apply wf_started|].
  split; simpl; [constructor|lia].
Qed.

End MoreBroker.

(** * The schematic tools *)

Lemma split_not_nil (c : CodeUnit) (s : JSString) : split c s <> [].
Proof.
  induction s as [|u r IH]; simpl; [discriminate|].
  destruct (u =? c)%N; [discriminate|].
  destruct (split c r); [contradiction|discriminate].
Qed.

Lemma split_parts_clean (c : CodeUnit) (s : JSString) :
  Forall (fun part => includesUnit c part = false) (split c s).
Proof.
  induction s as [|u r IH]; simpl.
  - repeat constructor.
  - destruct (u =? c)%N eqn:E; [constructor; [reflexivity|assumption]|].
    destruct (split c r) as [|part parts]; [repeat constructor; simpl|].
    + rewrite N.eqb_sym, E. reflexivity.
    + inversion IH; subst. constructor; [|assumption].
      simpl. rewrite N.eqb_sym, E. assumption.
Qed.

Lemma split_clean (c : CodeUnit) (s : JSString) :
  includesUnit c s = false -> split c s = [s].
Proof.
  induction s as [|u r IH]; simpl; [reflexivity|].
  rewrite N.eqb_sym. destruct (u =? c)%N; simpl; [discriminate|].
  intros H. rewrite (IH H). reflexivity.
Qed.

Lemma split_at_first (c : CodeUnit) (a b : JSString) :
  includesUnit c a = false -> split c (a ++ c :: b) = a :: split c b.
Proof.
  induction a as [|u r IH]; simpl.
  - rewrite N.eqb_refl. reflexivity.
  - rewrite N.eqb_sym. destruct (u =? c)%N; simpl; [discriminate|].
    intros H. rewrite (IH H). reflexivity.
Qed.

Lemma first_unit (c : CodeUnit) (s : JSString) :
  includesUnit c s = true ->
  exists a b, s = a ++ c :: b /\ includesUnit c a = false.
Proof.
  induction s as [|u r IH]; simpl; [discriminate|].
  destruct (c =? u)%N eqn:E; simpl.
  - intros _. apply N.eqb_eq in E. subst u. exists [], r. auto.
  - intros H. destruct (IH H) as (a & b & -> & Ha).
    exists (u :: a), b. simpl. rewrite E. auto.
Qed.

Section SchematicFacts.

Import Schematic.

Variable Number : Type.
Variable zero : Number.

(** X7.  add_schematic_component always sends a library and a type, and
    neither holds a colon.  A symbol without a colon is taken from the
    library Device.  A symbol with a colon gives the text before the first
    colon as library and the text up to the second colon, or to the end,
    as type: what follows a second colon is dropped. *)
Theorem symbol_parts (args : Args Number) :
  exists lib ty,
    library (component (transform zero args)) = Some lib /\
    type (component (transform zero args)) = Some ty /\
    includesUnit colon lib = false /\
    includesUnit colon ty = false /\
    (includesUnit colon (symbol args) = false ->
     lib = js "Device" /\ ty = symbol args) /\
    (includesUnit colon (symbol args) = true ->
     exists rest,
       symbol args = lib ++ colon :: ty ++ rest /\
       (rest = [] \/ exists r, rest = colon :: r)).
Proof.
  unfold transform. simpl.
  destruct (includesUnit colon (symbol args)) eqn:E.
  - destruct (@first_unit _ _ E) as (a & b & Hs & Ha).
    rewrite Hs, (@split_at_first _ _ b Ha). simpl.
    pose proof (split_parts_clean colon b) as F.
    pose proof (split_not_nil colon b) as Hn.
    destruct (split colon b) as [|ty parts] eqn:Hb; [contradiction|].
    exists a, ty. inversion F; subst.
    repeat split; try assumption; try discriminate.
    intros _.
    destruct (includesUnit colon b) eqn:Eb.
    + destruct (@first_unit _ _ Eb) as (b1 & b2 & -> & Hb1).
      rewrite (@split_at_first _ _ b2 Hb1) in Hb. injection Hb as <- _.
      exists (colon :: b2). split; [reflexivity|]. right. eauto.
    + rewrite (@split_clean _ _ Eb) in Hb. injection Hb as <- _.
      exists []. rewrite app_nil_r. auto.
  - exists (js "Device"), (symbol args).
    repeat split; try assumption; try reflexivity. discriminate.
Qed.

(** X8.  Leaving the library out is the same as writing Device: the handler
    sends the same component for R and for Device:R. *)
Theorem default_library_is_Device (sym : JSString) (args : Args Number) :
  includesUnit colon sym = false ->
  transform zero (with_symbol (js "Device" ++ colon :: sym) args)
  = transform zero (with_symbol sym args).
Proof.
  intros H.
  assert (E : includesUnit colon (js "Device" ++ colon :: sym) = true)
    by reflexivity.
  assert (P : split colon (js "Device" ++ colon :: sym) = [js "Device"; sym]).
  { rewrite (@split_at_first colon (js "Device") sym eq_refl).
    rewrite (@split_clean _ _ H). reflexivity. }
  unfold transform, with_symbol.
  cbn [symbol schematicPath reference value position].
  rewrite E, P, H. reflexivity.
Qed.

End SchematicFacts.

(** * Finding and checking the Python interpreter *)

Lemma find_in_app (A : Type) (f : A -> bool) (front back : list A) :
  find f (front ++ back) =
  match find f front with
  | Some hit => Some hit
  | None => find f back
  end.
Proof.
  induction front as [|a front IH]; simpl; [reflexivity|].
  destruct (f a); [reflexivity|exact IH].
Qed.

Section LauncherFacts.

Import Launcher.

Variable host : Host.

(** X9.  Whatever [findPythonExecutable] returns is the value of KICAD_PYTHON,
    or a path that exists, or the bare command name of the system
    Python. *)
Theorem findPythonExecutable_provenance (scriptPath : JSString) :
  let python := findPythonExecutable host scriptPath in
  KICAD_PYTHON host = Some python \/
  existsSync host python = true \/
  python = systemPython host.
Proof.
  unfold findPythonExecutable, whichPython.
  destruct (KICAD_PYTHON host) as [[|c v]|]; [|left; reflexivity|];
    right;
    repeat match goal with
      | |- context [find ?f ?l] =>
          let E := fresh "E" in
          destruct (find f l) eqn:E;
          [apply find_some in E; destruct E; left; assumption|]
      | |- context [if ?b then _ else _] =>
          let E := fresh "E" in destruct b eqn:E
      | |- context [which_python3 host] => destruct (which_python3 host)
      end;
    try (right; reflexivity);
    try (left; assumption);
    try (left;
         match goal with
         | H : _ && existsSync host _ = true |- _ =>
             apply andb_true_iff in H; apply H
         end).
Qed.

(** X10.  KICAD_PYTHON, when set and not empty, is returned as it is, without
    any check.  Otherwise the result is the first interpreter that exists
    in the order virtual environment, bundled Python, system Python, and
    the bare command name when none exists. *)
Theorem findPythonExecutable_priority (scriptPath : JSString) :
  (forall override, KICAD_PYTHON host = Some override -> override <> [] ->
     findPythonExecutable host scriptPath = override) /\
  (KICAD_PYTHON host = None \/ KICAD_PYTHON host = Some [] ->
   findPythonExecutable host scriptPath =
   match find (existsSync host) (candidates host scriptPath) with
   | Some python => python
   | None => systemPython host
   end).
Proof.
  split.
  - intros override H Hne. unfold findPythonExecutable. rewrite H.
    destruct override; [contradiction|reflexivity].
  - intros H. unfold findPythonExecutable, candidates, whichPython, isLinux.
    assert (Hplat : isWindows host = true -> isMac host = false).
    { unfold isWindows, isMac. intros Hw. apply String.eqb_eq in Hw.
      rewrite Hw. reflexivity. }
    assert (E : match KICAD_PYTHON host with
                | Some (c :: v) => None
                | _ => Some tt
                end = Some tt) by (destruct H as [-> | ->]; reflexivity).
    destruct (KICAD_PYTHON host) as [[|c v]|]; try discriminate E;
      rewrite find_in_app;
      (destruct (find (existsSync host) (venvPaths host _));
       [reflexivity|]);
      (destruct (isWindows host) eqn:Hw;
       [rewrite (Hplat eq_refl); simpl;
        destruct (PYTHONPATH host) as [pp|]; [|reflexivity];
        destruct (includesSub (js "KiCad") pp); [|reflexivity];
        simpl; destruct (existsSync host (windowsKicadPython)); reflexivity
       |]);
      cbn [andb negb];
      (destruct (isMac host) eqn:Hm; cbn [andb negb]; [reflexivity|]);
      rewrite find_in_app;
      (destruct (find (existsSync host) linuxKicadPaths); [reflexivity|]);
      rewrite find_in_app;
      (destruct (which_python3 host) as [output|]; [|reflexivity]);
      (destruct (truthy (trim output)); simpl; [|reflexivity]);
      (destruct (existsSync host (trim output)); reflexivity).
Qed.

(** X11.  [validatePrerequisites] answers true exactly when: the interpreter
    exists, if its path is absolute, or answers --version, if it is a
    command name; the interface script exists; dist/index.js exists beside
    it; and, when a file named as the interpreter exists, that interpreter
    imports pcbnew and prints OK. *)
Theorem validatePrerequisites_true_iff (kicadScriptPath pythonExe : JSString) :
  validatePrerequisites host kicadScriptPath pythonExe = true <->
  (if isAbsolutePath pythonExe then existsSync host pythonExe = true
   else exists stdout stderr,
          exec host (versionCommand pythonExe) = ExecDone stdout stderr) /\
  existsSync host kicadScriptPath = true /\
  existsSync host (distPath host kicadScriptPath) = true /\
  (existsSync host pythonExe = true ->
   exists stdout stderr,
     exec host (pcbnewTestCommand pythonExe) = ExecDone stdout stderr /\
     includesSub (js "OK") stdout = true).
Proof.
  unfold validatePrerequisites, prerequisiteErrors, pythonErrors, pcbnewErrors.
  destruct (isAbsolutePath pythonExe);
    destruct (existsSync host pythonExe) eqn:Ep;
    destruct (existsSync host kicadScriptPath) eqn:Es;
    destruct (existsSync host (distPath host kicadScriptPath)) eqn:Ed;
    destruct (exec host (versionCommand pythonExe)) as [m1|o1 e1] eqn:Ev;
    destruct (exec host (pcbnewTestCommand pythonExe)) as [m2|o2 e2] eqn:Et;
    try destruct (includesSub (js "OK") o2) eqn:Eo;
    simpl;
    (split;
     [ intros H; try discriminate H;
       repeat split; try reflexivity; try (intros; discriminate);
       eauto
     | intros (H1 & H2 & H3 & H4); try discriminate;
       try (destruct H1 as (? & ? & H1); discriminate H1);
       try (destruct (H4 eq_refl) as (? & ? & H5 & H6);
            first [discriminate H5
                  |injection H5 as <- <-; congruence]);
       try reflexivity ]).
Qed.

End LauncherFacts.

(** * The tool registry *)

Section RegistryFacts.

Import Registry.

Lemma map_get_set (V : Type) (k k' : string) (v : V) (m : StringMap V) :
  map_get k (map_set k' v m)
  = if String.eqb k' k then Some v else map_get k m.
Proof.
  induction m as [|[k1 v1] r IH]; simpl; [reflexivity|].
  destruct (String.eqb k1 k') eqn:E1; simpl.
  - apply String.eqb_eq in E1. subst k1.
    destruct (String.eqb k' k); reflexivity.
  - destruct (String.eqb k1 k) eqn:E2.
    + apply String.eqb_eq in E2. subst k1. rewrite String.eqb_sym, E1.
      reflexivity.
    + exact IH.
Qed.

(** Folding "the last one that matches wins" over a list. *)
Section LastMatch.

Variables (A B : Type) (hit : A -> bool) (val : A -> B).

Let pick (acc : option B) (a : A) : option B :=
  if hit a then Some (val a) else acc.

Lemma last_match_none (l : list A) (acc : option B) :
  existsb hit l = false -> fold_left pick l acc = acc.
Proof.
  revert acc. induction l as [|a l IH]; simpl; intros acc H; [reflexivity|].
  apply orb_false_iff in H. destruct H as [Ha Hl].
  rewrite (IH _ Hl). unfold pick. rewrite Ha. reflexivity.
Qed.

Lemma last_match_some (l : list A) (acc acc' : option B) :
  existsb hit l = true -> fold_left pick l acc = fold_left pick l acc'.
Proof.
  revert acc acc'. induction l as [|a l IH]; simpl; intros acc acc' H;
    [discriminate|].
  destruct (existsb hit l) eqn:Hl; [apply IH; reflexivity|].
  rewrite orb_false_r in H. rewrite !last_match_none by assumption.
  unfold pick. rewrite H. reflexivity.
Qed.

Lemma last_match_found (l : list A) (b : B) :
  fold_left pick l None = Some b ->
  exists a, In a l /\ hit a = true /\ val a = b.
Proof.
  induction l as [|a l IH] using rev_ind; simpl; [discriminate|].
  rewrite fold_left_app. simpl. unfold pick at 1.
  destruct (hit a) eqn:Ha.
  - intros H. injection H as <-. exists a. rewrite in_app_iff. simpl. auto.
  - intros H. destruct (IH H) as (a' & Hin & Hh & Hv).
    exists a'. rewrite in_app_iff. auto.
Qed.

Lemma last_match_twice (l : list A) (acc : option B) :
  fold_left pick l (fold_left pick l acc) = fold_left pick l acc.
Proof.
  destruct (existsb hit l) eqn:H.
  - apply last_match_some. assumption.
  - rewrite !last_match_none by assumption. reflexivity.
Qed.

Lemma last_match_is_some (l : list A) (acc : option B) :
  existsb hit l = true -> exists b, fold_left pick l acc = Some b.
Proof.
  revert acc. induction l as [|a l IH]; simpl; intros acc H; [discriminate|].
  destruct (existsb hit l) eqn:Hl; [apply IH; reflexivity|].
  rewrite orb_false_r in H. rewrite last_match_none by assumption.
  unfold pick. rewrite H. eauto.
Qed.

End LastMatch.

Lemma tools_loop (nm : string) (l : list string) :
  forall (cm : StringMap ToolCategory) (m : StringMap string),
  let r :=
    fold_left
      (fun maps toolName =>
         {| categoryMap := categoryMap maps;
            toolCategoryMap := map_set toolName nm (toolCategoryMap maps) |})
      l {| categoryMap := cm; toolCategoryMap := m |} in
  categoryMap r = cm /\
  forall t, map_get t (toolCategoryMap r)
            = if includes l t then Some nm else map_get t m.
Proof.
  induction l as [|a l IH]; intros cm m; simpl; [auto|].
  destruct (IH cm (map_set a nm m)) as [H1 H2].
  split; [exact H1|]. intros t. rewrite H2, map_get_set.
  rewrite (String.eqb_sym t a).
  destruct (String.eqb a t); simpl; destruct (includes l t); reflexivity.
Qed.

(** What the maps hold after [initializeRegistry]: for a tool, the name of
    the last category of the table that lists it; for a name, the last
    category of the table that bears it; and what they held before for
    the others. *)
Lemma initialized_lookup (table : list ToolCategory) :
  forall maps : Maps,
  (forall t,
      map_get t (toolCategoryMap (initializeRegistry_on table maps))
      = fold_left
          (fun acc c => if includes (tools c) t then Some (name c) else acc)
          table (map_get t (toolCategoryMap maps))) /\
  (forall n,
      map_get n (categoryMap (initializeRegistry_on table maps))
      = fold_left
          (fun acc c => if String.eqb (name c) n then Some c else acc)
          table (map_get n (categoryMap maps))).
Proof.
  unfold initializeRegistry_on.
  induction table as [|c table IH]; intros maps; simpl; [auto|].
  destruct (tools_loop (name c) (tools c)
              (map_set (name c) c (categoryMap maps)) (toolCategoryMap maps))
    as [H1 H2].
  cbv zeta in H1, H2.
  match goal with
  | |- context [fold_left _ table ?m] => destruct (IH m) as [I1 I2]
  end.
  split.
  - intros t. rewrite I1. simpl. rewrite H2. reflexivity.
  - intros n. rewrite I2. simpl. rewrite H1, map_get_set. reflexivity.
Qed.

Lemma routed_names_flat (table : list ToolCategory) :
  getRoutedToolNames_on table = flat_map tools table.
Proof.
  unfold getRoutedToolNames_on.
  assert (G : forall l acc,
             fold_left (fun a c => (a ++ tools c)%list) l acc
             = (acc ++ flat_map tools l)%list).
  { induction l as [|c l IH]; intros acc; simpl.
    - rewrite app_nil_r. reflexivity.
    - rewrite IH, app_assoc. reflexivity. }
  apply (G table []).
Qed.

Lemma listed_somewhere (table : list ToolCategory) (t : string) :
  existsb (fun c => includes (tools c) t) table = true
  <-> In t (flat_map tools table).
Proof.
  rewrite existsb_exists, in_flat_map. unfold includes.
  split; intros (c & Hc & H); exists c; split; auto.
  - apply existsb_exists in H. destruct H as (t' & Ht & E).
    apply String.eqb_eq in E. subst. assumption.
  - apply existsb_exists. exists t. split; [assumption|].
    apply String.eqb_refl.
Qed.

(** X12.  Once the registry is initialised from empty maps, [isRoutedTool]
    answers true exactly for the names [getRoutedToolNames] returns. *)
Theorem routed_iff_listed (table : list ToolCategory) (toolName : string) :
  isRoutedTool (initializeRegistry_on table no_maps) toolName = true
  <-> In toolName (getRoutedToolNames_on table).
Proof.
  rewrite routed_names_flat, <- listed_somewhere.
  unfold isRoutedTool, map_has.
  destruct (initialized_lookup table no_maps) as [H _]. rewrite H. simpl.
  destruct (existsb (fun c => includes (tools c) toolName) table) eqn:E.
  - destruct (@last_match_is_some _ _
                (fun c => includes (tools c) toolName) name table None E)
      as (b & ->).
    tauto.
  - rewrite (@last_match_none _ _
               (fun c => includes (tools c) toolName) name table None E).
    tauto.
Qed.

Lemma unique_name_found (table : list ToolCategory) (c : ToolCategory) :
  NoDup (map name table) -> In c table ->
  forall acc,
    fold_left (fun acc c' => if String.eqb (name c') (name c) then Some c'
                             else acc) table acc = Some c.
Proof.
  induction table as [|x table IH]; simpl; intros Hd Hin acc; [contradiction|].
  inversion Hd as [|? ? Hn Hd']; subst.
  destruct Hin as [->|Hin].
  - rewrite String.eqb_refl.
    apply (@last_match_none _ _
             (fun c' => String.eqb (name c') (name c)) (fun c' => c')).
    destruct (existsb _ table) eqn:E; [|reflexivity].
    apply existsb_exists in E. destruct E as (c' & Hc' & E).
    apply String.eqb_eq in E. exfalso. apply Hn. rewrite <- E.
    apply in_map. assumption.
  - apply IH; assumption.
Qed.

(** X13.  When no two categories bear the same name, the category
    [getToolCategory] names for a tool is one [getCategory] finds, and it
    lists the tool. *)
Theorem category_of_tool_lists_it (table : list ToolCategory)
    (toolName categoryName : string) :
  NoDup (map name table) ->
  let maps := initializeRegistry_on table no_maps in
  getToolCategory maps toolName = Some categoryName ->
  exists category,
    getCategory maps categoryName = Some category /\
    name category = categoryName /\
    In toolName (tools category) /\
    In category table.
Proof.
  intros Hd maps. unfold getToolCategory, getCategory, maps.
  destruct (initialized_lookup table no_maps) as [H1 H2].
  rewrite H1, H2. simpl. intros H.
  apply (@last_match_found _ _
           (fun c => includes (tools c) toolName) name) in H.
  destruct H as (c & Hin & Hinc & <-).
  exists c. split; [apply unique_name_found; assumption|].
  split; [reflexivity|]. split; [|assumption].
  unfold includes in Hinc. apply existsb_exists in Hinc.
  destruct Hinc as (t & Ht & E). apply String.eqb_eq in E. subst. assumption.
Qed.

(** X14.  Running [initializeRegistry] again changes no answer of
    [getToolCategory], [isRoutedTool] or [getCategory]. *)
Theorem initializeRegistry_again (table : list ToolCategory) (maps : Maps)
    (key : string) :
  let once := initializeRegistry_on table maps in
  let twice := initializeRegistry_on table once in
  getToolCategory twice key = getToolCategory once key /\
  isRoutedTool twice key = isRoutedTool once key /\
  getCategory twice key = getCategory once key.
Proof.
  intros once twice.
  unfold isRoutedTool, map_has, getToolCategory, getCategory, twice, once.
  destruct (initialized_lookup table maps) as [H1 H2].
  destruct (initialized_lookup table (initializeRegistry_on table maps))
    as [K1 K2].
  rewrite K1, K2, H1, H2.
  rewrite (@last_match_twice _ _
             (fun c => includes (tools c) key) name).
  rewrite (@last_match_twice _ _
             (fun c => String.eqb (name c) key) (fun c => c)).
  auto.
Qed.

(** X15.  No tool is both direct and routed. *)
Theorem direct_tools_are_not_routed (toolName : string) :
  isDirectTool toolName = true -> isRoutedTool loaded toolName = false.
Proof.
  unfold isDirectTool, includes. intros H. apply existsb_exists in H.
  destruct H as (t & Hin & E). apply String.eqb_eq in E. subst t.
  simpl in Hin.
  repeat (destruct Hin as [<-|Hin]; [vm_compute; reflexivity|]).
  contradiction.
Qed.

Lemma Forall_kept (A : Type) (P : A -> Prop) (n : nat) (l : list A) :
  Forall P l -> Forall P (firstn n l).
Proof.
  revert l. induction n as [|n IH]; intros l F; simpl; [constructor|].
  destruct F; constructor; auto.
Qed.

(** X16.  [searchTools] returns at most 20 results.  Each one names a category
    of the table and a tool that this category lists, describes it as
    "tool (category)", and is there because the query, in lower case,
    occurs in the lower-case tool name, category name or category
    description. *)
Theorem searchTools_results (table : list ToolCategory)
    (toLowerCase : string -> string) (query : string) :
  let results := searchTools_on table toLowerCase query in
  List.length results <= 20 /\
  Forall
    (fun r =>
       exists c,
         In c table /\ r_category r = name c /\ In (r_tool r) (tools c) /\
         r_description r
         = ((r_tool r) ++ " (" ++ name c ++ ")")%string /\
         (includesString (toLowerCase query) (toLowerCase (r_tool r)) = true \/
          includesString (toLowerCase query) (toLowerCase (name c)) = true \/
          includesString (toLowerCase query) (toLowerCase (description c))
          = true))
    results.
Proof.
  intros results. split; [apply firstn_le_length|].
  unfold results, searchTools_on. apply Forall_kept.
  set (q := toLowerCase query).
  set (ok := fun r : SearchResult =>
       exists c,
         In c table /\ r_category r = name c /\ In (r_tool r) (tools c) /\
         r_description r
         = ((r_tool r) ++ " (" ++ name c ++ ")")%string /\
         (includesString q (toLowerCase (r_tool r)) = true \/
          includesString q (toLowerCase (name c)) = true \/
          includesString q (toLowerCase (description c)) = true)).
  assert (Inner : forall c, In c table ->
            forall l acc, (forall t, In t l -> In t (tools c)) ->
            Forall ok acc ->
            Forall ok
              (fold_left
                 (fun matches toolName =>
                    if includesString q (toLowerCase toolName) ||
                       (includesString q (toLowerCase (name c)) ||
                        includesString q (toLowerCase (description c)))
                    then (matches ++
                          [{| r_category := name c; r_tool := toolName;
                              r_description :=
                                (toolName ++ " (" ++ name c ++ ")")%string
                           |}])%list
                    else matches) l acc)).
  { intros c Hc. induction l as [|t l IH]; simpl; intros acc Hl Hacc;
      [assumption|].
    apply IH; [intros; apply Hl; auto|].
    destruct (includesString q (toLowerCase t) || _) eqn:E; [|assumption].
    apply Forall_app. split; [assumption|].
    constructor; [|constructor].
    exists c. simpl. repeat split; auto.
    apply orb_true_iff in E. destruct E as [E|E]; [auto|].
    apply orb_true_iff in E. tauto. }
  assert (Outer : forall l acc, (forall c, In c l -> In c table) ->
            Forall ok acc ->
            Forall ok
              (fold_left
                 (fun matches category =>
                    fold_left
                      (fun matches toolName =>
                         if includesString q (toLowerCase toolName) ||
                            (includesString q (toLowerCase (name category)) ||
                             includesString q
                               (toLowerCase (description category)))
                         then (matches ++
                               [{| r_category := name category;
                                   r_tool := toolName;
                                   r_description :=
                                     (toolName ++ " (" ++ name category ++ ")")
                                     %string |}])%list
                         else matches) (tools category) matches) l acc)).
  { induction l as [|c l IH]; simpl; intros acc Hl Hacc; [assumption|].
    apply IH; [intros; apply Hl; auto|].
    apply Inner; auto. }
  apply Outer; auto.
Qed.

(** X17.  The statistics add up: the number of routed tools is the sum of the
    tool counts of the categories, the total is routed plus direct, and
    there is one count per category, under its name and in table order. *)
Theorem registry_stats_add_up (table : list ToolCategory) :
  let stats := getRegistryStats_on table in
  total_routed_tools stats = list_sum (map tool_count (categories stats)) /\
  total_tools stats = total_routed_tools stats + total_direct_tools stats /\
  total_categories stats = List.length (categories stats) /\
  map c_name (categories stats) = map name table.
Proof.
  unfold getRegistryStats_on. simpl.
  rewrite routed_names_flat, length_map, !map_map. simpl.
  repeat split; try reflexivity.
  induction table as [|c table IH]; simpl; [reflexivity|].
  rewrite length_app, IH. reflexivity.
Qed.

(** X18.  The commands with the ten-minute timeout are routed tools of the
    export and drc categories; the direct tools and the schematic tools
    all run with the default of 30000 ms. *)
Theorem timeouts_by_kind_of_tool (toolName : string) :
  (commandTimeout toolName = 600000%Z ->
   getToolCategory loaded toolName = Some "export"%string \/
   getToolCategory loaded toolName = Some "drc"%string) /\
  (isDirectTool toolName = true \/ In toolName Schematic.commands ->
   commandTimeout toolName = 30000%Z).
Proof.
  split.
  - unfold commandTimeout.
    destruct (includes longRunningCommands toolName) eqn:E; [|discriminate].
    intros _. unfold includes in E. apply existsb_exists in E.
    destruct E as (t & Hin & E). apply String.eqb_eq in E. subst t.
    simpl in Hin.
    repeat (destruct Hin as [<-|Hin];
            [vm_compute; first [left; reflexivity|right; reflexivity]|]).
    contradiction.
  - intros [H|H].
    + unfold isDirectTool, includes in H. apply existsb_exists in H.
      destruct H as (t & Hin & E). apply String.eqb_eq in E. subst t.
      simpl in Hin.
      repeat (destruct Hin as [<-|Hin]; [reflexivity|]). contradiction.
    + simpl in H.
      repeat (destruct H as [<-|H]; [reflexivity|]). contradiction.
Qed.

End RegistryFacts.

(** * Order of dispatch, and the end of the child *)

Section BrokerOrder.

Context {Params Value : Type} {RT : Runtime Params Value}.

Abbreviation Srv := (@KiCADMcpServer Params Value).

Lemma sorted_tail (a : nat) (l : list nat) :
  StronglySorted lt (a :: l) -> StronglySorted lt l.
Proof. intros H. inversion H; assumption. Qed.

Lemma sorted_snoc (l : list nat) (n : nat) :
  StronglySorted lt l -> Forall (fun a => a < n) l ->
  StronglySorted lt (l ++ [n]).
Proof.
  induction l as [|a l IH]; simpl; intros Hs Hf.
  - repeat constructor.
  - inversion Hs; subst. inversion Hf; subst.
    constructor; [auto|]. apply Forall_app. split; [assumption|].
    repeat constructor. assumption.
Qed.

Lemma waiting_processNextRequest (s : Srv) :
  (processingRequest s = false -> currentRequestHandler s = None) ->
  StronglySorted lt (waiting s) ->
  StronglySorted lt (waiting (processNextRequest s)).
Proof.
  intros Hidle Hs. unfold processNextRequest.
  destruct (requestQueue s) as [|e rest] eqn:Hq; [assumption|].
  destruct (processingRequest s) eqn:Hp; [assumption|].
  unfold waiting, in_flight in *. rewrite (Hidle eq_refl), Hq in Hs.
  simpl in Hs.
  destruct (JSON_stringify (request e)) as [str|].
  - unfold stdin_write, setTimeout. simpl.
    destruct (pythonProcess s) as [p|]; [|exact Hs].
    destruct (stdin p); [|exact Hs].
    destruct (stdin_write_throws _); [|exact Hs].
    unfold processNextRequest_catch, settle.
    by_cases; apply (sorted_tail Hs).
  - unfold processNextRequest_catch, settle.
    by_cases; apply (sorted_tail Hs).
Qed.

Lemma waiting_step (s : Srv) (e : Event) :
  wf s -> StronglySorted lt (waiting s) ->
  StronglySorted lt (waiting (step s e)).
Proof.
  intros W Hs.
  assert (Hidle : processingRequest s = false ->
                  currentRequestHandler s = None).
  { intros Hp. pose proof (wf_handler W) as Wh. unfold handler_ok in Wh.
    destruct (currentRequestHandler s); [destruct Wh; congruence|reflexivity]. }
  assert (Hdrop : StronglySorted lt (map caller (requestQueue s))).
  { unfold waiting, in_flight in Hs.
    destruct (currentRequestHandler s); [apply (sorted_tail Hs)|exact Hs]. }
  assert (Same : forall s' : Srv,
            currentRequestHandler s' = currentRequestHandler s /\
            requestQueue s' = requestQueue s ->
            StronglySorted lt (waiting s')).
  { intros s' [H1 H2]. unfold waiting, in_flight. rewrite H1, H2. exact Hs. }
  assert (Idle : forall s' : Srv,
            currentRequestHandler s' = None /\
            requestQueue s' = requestQueue s ->
            StronglySorted lt (waiting s')).
  { intros s' [H1 H2]. unfold waiting, in_flight. rewrite H1, H2.
    exact Hdrop. }
  destruct e as [c a|chunk|t| |]; simpl.
  - unfold callKicadScript. simpl.
    destruct (pythonProcess s) as [p|] eqn:Hpy; simpl.
    + assert (Hpush : StronglySorted lt
                (waiting
                   (set_requestQueue
                      (requestQueue s ++
                       [{| request := {| command := c; params := a;
                                         timeout := commandTimeout c |};
                           caller := next_call s |}])
                      (set_next_call (S (next_call s)) s)))).
      { unfold waiting, in_flight in *. simpl.
        rewrite map_app, app_assoc. simpl. apply sorted_snoc; [exact Hs|].
        apply Forall_app. split.
        - destruct (currentRequestHandler s) as [h|] eqn:Hh; [|constructor].
          destruct (wf_handler_not_queued W Hh). repeat constructor.
          assumption.
        - pose proof (wf_queue W) as F. apply Forall_forall.
          intros n Hn. apply in_map_iff in Hn. destruct Hn as (x & <- & Hx).
          rewrite Forall_forall in F. apply (F x Hx). }
      destruct (processingRequest s) eqn:Hp; [exact Hpush|].
      apply waiting_processNextRequest; [|exact Hpush].
      simpl. intros _. auto.
    + apply Same. unfold settle. by_cases; auto.
  - unfold handlePythonResponse, tryParseResponse. simpl.
    destruct (currentRequestHandler s) as [h|] eqn:Hh.
    + destruct (JSON_parse _) as [v|];
        [|apply Same; simpl; rewrite Hh; auto].
      destruct (isNull v); [apply Same; simpl; rewrite Hh; auto|].
      apply Idle. unfold settle. by_cases; auto.
    + apply Same. destruct (truthy _); simpl; rewrite Hh; auto.
  - unfold fire. destruct (lookup_timer t s) as [x|]; [|exact Hs].
    unfold runTask. destruct (t_task x).
    + apply Idle. unfold settle. by_cases; auto.
    + apply waiting_processNextRequest; [exact Hidle|apply Same; auto].
  - exact Hs.
  - apply Same. unfold stop. by_cases; auto.
Qed.

(** X19.  Calls are served in the order they were made, whatever fails: in
    every state the pending call is older than every queued call, and the
    queue holds the calls from the oldest to the newest. *)
Theorem served_in_call_order (s : Srv) :
  reachable s ->
  StronglySorted lt (in_flight s ++ map caller (requestQueue s)).
Proof.
  intros (p & tr & _ & ->).
  assert (G : forall tr (s : Srv), wf s -> StronglySorted lt (waiting s) ->
                StronglySorted lt (waiting (run s tr))).
  { induction tr0 as [|e tr0 IH]; simpl; intros s W Hs; [assumption|].
    apply IH; [apply wf_step|apply waiting_step]; assumption. }
  apply (G tr (started p)); [apply wf_started|constructor].
Qed.



(** X21.  While the child is alive and stdin.write does not throw, no deadline
    timer outlives its call: every armed timer that is not a drain
    callback is the deadline of the pending call, so none is armed while
    the object is idle. *)
Theorem no_deadline_outlives_its_call (p : ChildProcess) (tr : list Event)
    (x : Timer) :
  (forall line, stdin_write_throws line = false) ->
  forallb alive_event tr = true ->
  let s : Srv := run (started p) tr in
  In x (timers s) -> is_drain x = false ->
  exists h d cmd,
    currentRequestHandler s = Some h /\
    x = {| t_id := timeoutHandle h; t_delay := d;
           t_task := DeadlineTask (h_caller h) d cmd |}.
Proof.
  intros Hw Ha s Hin Hd.
  assert (W : wf s) by apply wf_run, wf_started.
  assert (S : serial s).
  { apply serial_run; auto using wf_started, serial_started. }
  destruct (serial_deadline S x Hin Hd) as (h & Hh & Hid).
  pose proof (wf_handler W) as Wh. unfold handler_ok in Wh.
  rewrite Hh in Wh. destruct Wh as (_ & _ & d & cmd & Hy).
  exists h, d, cmd. split; [exact Hh|].
  eapply NoDup_map_inj; eauto using wf_timer_ids.
Qed.

End BrokerOrder.

(** * Searching the registry *)

Section SearchFacts.

Import Registry.

Variable toLowerCase : string -> string.

(** X22.  [searchTools] returns exactly the first 20 matching tools, in the
    order of the table: category by category, and within a category in
    the order of its tools. *)
Theorem searchTools_in_table_order (table : list ToolCategory)
    (query : string) :
  searchTools_on table toLowerCase query
  = firstn 20 (matchingTools table toLowerCase query).
Proof.
  unfold searchTools_on, matchingTools. f_equal.
  set (q := toLowerCase query).
  assert (Inner : forall c l acc,
            fold_left
              (fun matches toolName =>
                 if includesString q (toLowerCase toolName) ||
                    (includesString q (toLowerCase (name c)) ||
                     includesString q (toLowerCase (description c)))
                 then (matches ++
                       [{| r_category := name c; r_tool := toolName;
                           r_description :=
                             (toolName ++ " (" ++ name c ++ ")")%string
                        |}])%list
                 else matches) l acc
            = (acc ++ map (resultFor c)
                        (filter (toolMatches toLowerCase q c) l))%list).
  { intros c. induction l as [|t l IH]; intros acc; simpl.
    - rewrite app_nil_r. reflexivity.
    - rewrite IH. unfold toolMatches at 2.
      destruct (includesString q (toLowerCase t) || _); simpl.
      + rewrite <- app_assoc. reflexivity.
      + reflexivity. }
  assert (Outer : forall l acc,
            fold_left
              (fun matches category =>
                 fold_left
                   (fun matches toolName =>
                      if includesString q (toLowerCase toolName) ||
                         (includesString q (toLowerCase (name category)) ||
                          includesString q
                            (toLowerCase (description category)))
                      then (matches ++
                            [{| r_category := name category;
                                r_tool := toolName;
                                r_description :=
                                  (toolName ++ " (" ++ name category ++ ")")
                                  %string |}])%list
                      else matches) (tools category) matches) l acc
            = (acc ++
               flat_map
                 (fun category =>
                    map (resultFor category)
                      (filter (toolMatches toLowerCase q category)
                         (tools category))) l)%list).
  { induction l as [|c l IH]; intros acc; simpl.
    - rewrite app_nil_r. reflexivity.
    - rewrite Inner, IH, app_assoc. reflexivity. }
  apply (Outer table []).
Qed.

End SearchFacts.

(** * The further facts on concrete inputs *)

Section MoreRuns.

Import ToyJson ToyJsonMore.

(** X1 on an input: a call has been written and waits for its answer. *)
Lemma busy_iff_pending_witness :
  reachable (RT := runtime) one_pending /\
  processingRequest one_pending = true /\
  currentRequestHandler one_pending <> None.
Proof.
  split; [exact (reachable_run _)|]. split; [reflexivity|].
  apply (proj1 (@busy_iff_pending _ _ runtime one_pending (reachable_run _))).
  reflexivity.
Defined.

(** X2 on an input: a newline, then x, arrive on an idle object; the newline
    is kept, x empties the buffer. *)
Lemma idle_buffer_is_blank_witness :
  reachable (RT := runtime)
    (run (RT := runtime) (started child)
       [Data (utf8 newline); Data (utf8 (js "x"))]) /\
  responseBuffer (run (RT := runtime) (started child) [Data (utf8 newline)])
  = newline /\
  forallb isWhiteSpace
    (responseBuffer
       (run (RT := runtime) (started child)
          [Data (utf8 newline); Data (utf8 (js "x"))]))
  = true.
Proof.
  split; [exact (reachable_run _)|]. split; [reflexivity|].
  exact (@idle_buffer_is_blank _ _ runtime _
           (reachable_run [Data (utf8 newline); Data (utf8 (js "x"))]) eq_refl).
Defined.

(** X3 on an input: a third call is made while run_drc is pending. *)
Lemma never_writes_while_pending_witness :
  reachable (RT := runtime) two_calls /\
  currentRequestHandler two_calls
  = Some {| h_caller := 0; timeoutHandle := 0 |} /\
  stdin_written
    (step (RT := runtime) two_calls (Submit "add_wire" no_params))
  = stdin_written two_calls.
Proof.
  split; [exact (reachable_run _)|]. split; [reflexivity|].
  exact (@never_writes_while_pending _ _ runtime _
           (Submit "add_wire" no_params) two_calls (reachable_run _) eq_refl).
Defined.

Lemma reachable_picky (tr : list (@Event (option Json))) :
  reachable (RT := picky_runtime)
    (run (RT := picky_runtime) (started child) tr).
Proof. exists child, tr. split; reflexivity. Defined.

(** X4 on an input: a request that JSON.stringify refuses reaches the head
    of the queue. *)
Lemma unserialisable_request_rejected_witness :
  reachable (RT := picky_runtime) unserialisable_queued /\
  processingRequest unserialisable_queued = false /\
  map caller (requestQueue unserialisable_queued) = [1] /\
  outcome 1 (processNextRequest (RT := picky_runtime) unserialisable_queued)
  = Some (Rejected (Raised StringifyError)) /\
  stdin_written (processNextRequest (RT := picky_runtime)
                   unserialisable_queued)
  = stdin_written unserialisable_queued.
Proof.
  split; [exact (reachable_picky _)|]. do 2 (split; [reflexivity|]).
  destruct (@unserialisable_request_rejected _ _ picky_runtime _ _
              unserialisable_queued (reachable_picky _)
              eq_refl eq_refl eq_refl)
    as (H1 & _ & H2 & _).
  exact (conj H1 H2).
Defined.

(** X5 on an input: the child answers null. *)
Lemma null_response_times_out_witness :
  reachable (RT := runtime) one_pending /\
  @JSON_parse _ _ runtime
    (responseBuffer one_pending ++ toString (utf8 (js "null")))
  = Some JNull /\
  outcome 0
    (handlePythonResponse (RT := runtime) (utf8 (js "null")) one_pending)
  = None /\
  exists d cmd,
    outcome 0
      (fire (RT := runtime) 0
         (handlePythonResponse (RT := runtime) (utf8 (js "null")) one_pending))
    = Some (Rejected (CommandTimeout d cmd)).
Proof.
  split; [exact (reachable_run _)|]. split; [reflexivity|].
  destruct (@null_response_times_out _ _ runtime (utf8 (js "null")) JNull
              {| h_caller := 0; timeoutHandle := 0 |} one_pending
              (reachable_run _) eq_refl eq_refl eq_refl)
    as (_ & H1 & _ & H2).
  exact (conj H1 H2).
Defined.

(** X6 on an input: a run through every handler; two of its three calls
    are written. *)
Lemma written_lines_are_requests_witness :
  reachable (RT := runtime) (run (RT := runtime) (started child) busy_run) /\
  Forall (request_line (RT := runtime))
    (stdin_written (run (RT := runtime) (started child) busy_run)) /\
  List.length (stdin_written (run (RT := runtime) (started child) busy_run))
  = 2.
Proof.
  split; [exact (reachable_run _)|].
  split; [|reflexivity].
  exact (proj1 (@written_lines_are_requests _ _ runtime _
                  (reachable_run busy_run))).
Defined.

(** X7 on an input: the symbol names a library and a type. *)
Lemma symbol_parts_witness :
  includesUnit colon (Schematic.symbol Schematic.esp32_args) = true /\
  exists lib ty,
    Schematic.library
      (Schematic.component (Schematic.transform 0%Z Schematic.esp32_args))
    = Some lib /\
    Schematic.type
      (Schematic.component (Schematic.transform 0%Z Schematic.esp32_args))
    = Some ty /\
    exists rest,
      Schematic.symbol Schematic.esp32_args = lib ++ colon :: ty ++ rest.
Proof.
  split; [reflexivity|].
  destruct (@symbol_parts Z 0%Z Schematic.esp32_args)
    as (lib & ty & H1 & H2 & _ & _ & _ & H3).
  destruct (H3 eq_refl) as (rest & H4 & _).
  exists lib, ty. split; [exact H1|]. split; [exact H2|].
  exists rest. exact H4.
Defined.

(** X8 on an input: the symbol R. *)
Lemma default_library_is_Device_witness :
  includesUnit colon (js "R") = false /\
  Schematic.transform 0%Z
    (Schematic.with_symbol (js "Device" ++ colon :: js "R")
       Schematic.esp32_args)
  = Schematic.transform 0%Z
      (Schematic.with_symbol (js "R") Schematic.esp32_args).
Proof.
  split; [reflexivity|].
  exact (@default_library_is_Device Z 0%Z (js "R") Schematic.esp32_args
           eq_refl).
Defined.

(** X10 on an input: a Linux host with a virtual environment, without and
    with KICAD_PYTHON. *)
Lemma findPythonExecutable_priority_witness :
  Launcher.KICAD_PYTHON Launcher.linux_host = None /\
  Launcher.findPythonExecutable Launcher.linux_host Launcher.project_script
  = js "/opt/kicad-mcp/venv/bin/python" /\
  Launcher.KICAD_PYTHON Launcher.linux_host_with_override
  = Some (js "/usr/bin/python3") /\
  Launcher.findPythonExecutable Launcher.linux_host_with_override
    Launcher.project_script
  = js "/usr/bin/python3".
Proof.
  split; [reflexivity|]. split.
  - rewrite (proj2 (findPythonExecutable_priority Launcher.linux_host
                      Launcher.project_script) (or_introl eq_refl)).
    reflexivity.
  - split; [reflexivity|].
    apply (proj1 (findPythonExecutable_priority
                    Launcher.linux_host_with_override
                    Launcher.project_script) _ eq_refl).
    discriminate.
Defined.

(** X11 on an input: a Linux host with everything in place, and the same
    with the interface script missing. *)
Lemma validatePrerequisites_true_iff_witness :
  Launcher.existsSync Launcher.linux_host Launcher.project_script = true /\
  Launcher.validatePrerequisites Launcher.linux_host Launcher.project_script
    (js "/opt/kicad-mcp/venv/bin/python") = true /\
  Launcher.validatePrerequisites Launcher.linux_host
    (js "/opt/kicad-mcp/python/missing.py")
    (js "/opt/kicad-mcp/venv/bin/python") = false.
Proof.
  split; [reflexivity|]. split.
  - apply (proj2 (validatePrerequisites_true_iff Launcher.linux_host
                    Launcher.project_script
                    (js "/opt/kicad-mcp/venv/bin/python"))).
    split; [reflexivity|]. split; [reflexivity|]. split; [reflexivity|].
    intros _. exists (js "OK" ++ newline), []. split; reflexivity.
  - destruct (Launcher.validatePrerequisites Launcher.linux_host
                (js "/opt/kicad-mcp/python/missing.py")
                (js "/opt/kicad-mcp/venv/bin/python")) eqn:E;
      [|reflexivity].
    apply (proj1 (validatePrerequisites_true_iff Launcher.linux_host
                    (js "/opt/kicad-mcp/python/missing.py")
                    (js "/opt/kicad-mcp/venv/bin/python"))) in E.
    destruct E as (_ & E & _). discriminate E.
Defined.

(** X12 on an input: run_drc. *)
Lemma routed_iff_listed_witness :
  In "run_drc"%string Registry.getRoutedToolNames /\
  Registry.isRoutedTool Registry.loaded "run_drc" = true.
Proof.
  assert (H : In "run_drc"%string Registry.getRoutedToolNames)
    by (vm_compute; tauto).
  split; [exact H|].
  exact (proj2 (routed_iff_listed Registry.toolCategories "run_drc") H).
Defined.

Lemma table_names_differ : NoDup (map Registry.name Registry.toolCategories).
Proof.
  simpl. repeat (constructor; [simpl; intuition discriminate|]).
  constructor.
Defined.

(** X13 on an input: add_wire in the table of the module. *)
Lemma category_of_tool_lists_it_witness :
  NoDup (map Registry.name Registry.toolCategories) /\
  Registry.getToolCategory Registry.loaded "add_wire"
  = Some "schematic"%string /\
  exists category,
    Registry.getCategory Registry.loaded "schematic" = Some category /\
    In "add_wire"%string (Registry.tools category).
Proof.
  split; [exact table_names_differ|]. split; [reflexivity|].
  destruct (@category_of_tool_lists_it Registry.toolCategories
              "add_wire" "schematic" table_names_differ eq_refl)
    as (category & H1 & _ & H2 & _).
  exists category. exact (conj H1 H2).
Defined.

(** X15 on an input: get_board_info. *)
Lemma direct_tools_are_not_routed_witness :
  Registry.isDirectTool "get_board_info" = true /\
  Registry.isRoutedTool Registry.loaded "get_board_info" = false.
Proof.
  split; [reflexivity|].
  exact (direct_tools_are_not_routed "get_board_info" eq_refl).
Defined.

(** X18 on an input: export_3d is an export tool; generate_netlist is a
    schematic tool. *)
Lemma timeouts_by_kind_of_tool_witness :
  commandTimeout "export_3d" = 600000%Z /\
  (Registry.getToolCategory Registry.loaded "export_3d"
   = Some "export"%string \/
   Registry.getToolCategory Registry.loaded "export_3d" = Some "drc"%string) /\
  In "generate_netlist"%string Schematic.commands /\
  commandTimeout "generate_netlist" = 30000%Z.
Proof.
  split; [reflexivity|].
  split; [exact (proj1 (timeouts_by_kind_of_tool "export_3d") eq_refl)|].
  assert (H : In "generate_netlist"%string Schematic.commands)
    by (simpl; tauto).
  split; [exact H|].
  exact (proj2 (timeouts_by_kind_of_tool "generate_netlist") (or_intror H)).
Defined.

(** X19 on an input: a run through every handler. *)
Lemma served_in_call_order_witness :
  reachable (RT := runtime) (run (RT := runtime) (started child) busy_run) /\
  StronglySorted lt
    (in_flight (run (RT := runtime) (started child) busy_run) ++
     map caller (requestQueue (run (RT := runtime) (started child) busy_run))).
Proof.
  split; [exact (reachable_run busy_run)|].
  exact (@served_in_call_order _ _ runtime _ (reachable_run busy_run)).
Defined.


(** X21 on an input: the only timer armed after two calls is the deadline of
    run_drc, which is pending. *)
Lemma no_deadline_outlives_its_call_witness :
  (forall line, @stdin_write_throws _ _ runtime line = false) /\
  In {| t_id := 0; t_delay := 600000;
        t_task := DeadlineTask 0 600000 "run_drc" |}
     (timers (run (RT := runtime) (started child)
                [Submit "run_drc" no_params;
                 Submit "get_board_info" no_params])) /\
  exists h d cmd,
    currentRequestHandler
      (run (RT := runtime) (started child)
         [Submit "run_drc" no_params; Submit "get_board_info" no_params])
    = Some h /\
    {| t_id := 0; t_delay := 600000;
       t_task := DeadlineTask 0 600000 "run_drc" |}
    = {| t_id := timeoutHandle h; t_delay := d;
         t_task := DeadlineTask (h_caller h) d cmd |}.
Proof.
  split; [exact runtime_never_throws|].
  assert (H : In {| t_id := 0; t_delay := 600000;
        t_task := DeadlineTask 0 600000 "run_drc" |}
     (timers (run (RT := runtime) (started child)
                [Submit "run_drc" no_params;
                 Submit "get_board_info" no_params])))
    by (vm_compute; left; reflexivity).
  split; [exact H|].
  exact (@no_deadline_outlives_its_call _ _ runtime child
           [Submit "run_drc" no_params; Submit "get_board_info" no_params]
           {| t_id := 0; t_delay := 600000;
              t_task := DeadlineTask 0 600000 "run_drc" |}
           runtime_never_throws eq_refl H eq_refl).
Defined.

(** X23 on an input: the three chunks of which the first ends inside a
    letter. *)
Lemma no_prefix_of_garbled_parses (pre : JSString) :
  proper_prefix pre (List.concat (map toString cafe_chunks)) ->
  @JSON_parse _ _ runtime pre = None.
Proof.
  intros (suffix & Hne & E).
  let doc := eval vm_compute in (List.concat (map toString cafe_chunks)) in
  change (List.concat (map toString cafe_chunks)) with doc in E.
  repeat (destruct pre as [|? pre];
          [reflexivity
          |first [discriminate E | injection E as <- E]]).
  destruct pre; [|discriminate E].
  simpl in E. congruence.
Defined.

Lemma response_is_chunks_decoded_apart_witness :
  reachable (RT := runtime) one_pending /\
  currentRequestHandler one_pending
  = Some {| h_caller := 0; timeoutHandle := 0 |} /\
  responseBuffer one_pending = [] /\
  @JSON_parse _ _ runtime (List.concat (map toString cafe_chunks))
  = Some cafe_garbled /\
  outcome 0 (run (RT := runtime) one_pending (map (@Data Json) cafe_chunks))
  = Some (Resolved cafe_garbled).
Proof.
  assert (Hne : Forall (fun c : Buffer => c <> []) cafe_chunks)
    by (repeat constructor; discriminate).
  assert (Hnil : cafe_chunks <> []) by discriminate.
  destruct (@response_is_chunks_decoded_apart _ _ runtime cafe_chunks
              {| h_caller := 0; timeoutHandle := 0 |} cafe_garbled
              one_pending
              (reachable_run _) eq_refl eq_refl Hnil Hne
              no_prefix_of_garbled_parses eq_refl eq_refl)
    as (_ & Hlast & _).
  split; [exact (reachable_run _)|].
  do 3 (split; [reflexivity|]).
  exact Hlast.
Defined.

End MoreRuns.
